(** * Contentful case-sensitive search: a shallow embedding of [index.js]
    and of the two other variants of the script kept in the repository,
    with the properties of the search driver, the field normaliser and the
    snippet maker.

    The embedding follows the JavaScript sources function by function.
    Strings are sequences of UTF-16 code units, because [slice], [indexOf]
    and [length] count code units; values coming from the content API are
    JSON-shaped JavaScript values; a call that may throw returns an
    [Outcome].  The console is left out of the run of [index.js]: its
    lines, all behind [DEBUG_MODE], read the values at hand and change
    nothing; the context line written for a match is modelled on its own. *)

From Stdlib Require Import String Ascii.
From Stdlib Require Import List ZArith NArith Lia Bool.
Import ListNotations.
Local Open Scope Z_scope.
Set Warnings "-register-all".

(** ** JavaScript strings *)

Definition codeunit := N.
Definition jsstring := list codeunit.

(** An ASCII literal as a JavaScript string (one code unit per character). *)
Fixpoint lit (s : string) : jsstring :=
  match s with
  | EmptyString => []
  | String c s' => N_of_ascii c :: lit s'
  end.
Arguments lit _%_string.

(** ["…"], U+2026, a single code unit. *)
Definition ellipsis : jsstring := [8230%N].

Definition jslength (s : jsstring) : Z := Z.of_nat (length s).

Fixpoint jsstring_eqb (a b : jsstring) : bool :=
  match a, b with
  | [], [] => true
  | c :: a', d :: b' => (c =? d)%N && jsstring_eqb a' b'
  | _, _ => false
  end.

(** [String.prototype.slice(start, end)]: negative indices count from the
    end, both indices are clamped to the string, an empty range gives [""]. *)
Definition slice (s : jsstring) (start finish : Z) : jsstring :=
  let len := jslength s in
  let from := if start <? 0 then Z.max (len + start) 0 else Z.min start len in
  let to := if finish <? 0 then Z.max (len + finish) 0 else Z.min finish len in
  firstn (Z.to_nat (Z.max (to - from) 0)) (skipn (Z.to_nat from) s).

(** Does [s] begin with the code units of [t]?  Code units are compared
    exactly: no case folding, no normalisation. *)
Fixpoint startsWith (t s : jsstring) : bool :=
  match t, s with
  | [], _ => true
  | c :: t', d :: s' => (c =? d)%N && startsWith t' s'
  | _ :: _, [] => false
  end.

(** [String.prototype.indexOf(t)]: the least position at which [t] occurs,
    or [-1]. *)
Fixpoint indexOfFrom (s t : jsstring) (k : Z) : Z :=
  if startsWith t s then k
  else match s with
       | [] => -1
       | _ :: s' => indexOfFrom s' t (k + 1)
       end.

Definition indexOf (s t : jsstring) : Z := indexOfFrom s t 0.

(** Decimal rendering of an array index, as property keys show it. *)
Fixpoint uint_units (d : Decimal.uint) : jsstring :=
  match d with
  | Decimal.Nil => []
  | Decimal.D0 d => 48%N :: uint_units d
  | Decimal.D1 d => 49%N :: uint_units d
  | Decimal.D2 d => 50%N :: uint_units d
  | Decimal.D3 d => 51%N :: uint_units d
  | Decimal.D4 d => 52%N :: uint_units d
  | Decimal.D5 d => 53%N :: uint_units d
  | Decimal.D6 d => 54%N :: uint_units d
  | Decimal.D7 d => 55%N :: uint_units d
  | Decimal.D8 d => 56%N :: uint_units d
  | Decimal.D9 d => 57%N :: uint_units d
  end.

Definition indexKey (n : nat) : jsstring := uint_units (Nat.to_uint n).

(** ** JavaScript values, as the content API delivers them *)

(** [JNum] carries an integer: the program only asks a number for its type
    and its truthiness.  [JFun] is a callable, which JSON never contains but
    which a lookup through [Object.prototype] may return. *)
Inductive JsValue : Type :=
| JUndefined
| JNull
| JBool (b : bool)
| JNum (n : Z)
| JStr (s : jsstring)
| JArr (elems : list JsValue)
| JObj (props : list (jsstring * JsValue))
| JFun.

Inductive JsType := TUndefined | TObject | TBoolean | TNumber | TString | TFunction.

Definition typeof (v : JsValue) : JsType :=
  match v with
  | JUndefined => TUndefined
  | JNull => TObject
  | JBool _ => TBoolean
  | JNum _ => TNumber
  | JStr _ => TString
  | JArr _ => TObject
  | JObj _ => TObject
  | JFun => TFunction
  end.

Definition isObjectType (v : JsValue) : bool :=
  match typeof v with TObject => true | _ => false end.

Definition isStringType (v : JsValue) : bool :=
  match typeof v with TString => true | _ => false end.

Definition isArray (v : JsValue) : bool :=
  match v with JArr _ => true | _ => false end.

(** [ToBoolean]: [undefined], [null], [false], [0] and [""] are falsy. *)
Definition truthy (v : JsValue) : bool :=
  match v with
  | JUndefined | JNull => false
  | JBool b => b
  | JNum n => negb (n =? 0)
  | JStr s => match s with [] => false | _ => true end
  | JArr _ | JObj _ | JFun => true
  end.

Definition truthyStr (s : jsstring) : bool :=
  match s with [] => false | _ => true end.

(** Own properties of an object, in the order [Object.entries] lists them;
    the first binding of a key is the one a lookup sees. *)
Fixpoint ownProp (props : list (jsstring * JsValue)) (key : jsstring) : option JsValue :=
  match props with
  | [] => None
  | (k, v) :: rest => if jsstring_eqb k key then Some v else ownProp rest key
  end.

(** The names every plain object inherits from [Object.prototype]. *)
Definition objectPrototypeKeys : list jsstring :=
  [ lit "constructor"; lit "hasOwnProperty"; lit "isPrototypeOf";
    lit "propertyIsEnumerable"; lit "toLocaleString"; lit "toString";
    lit "valueOf"; lit "__defineGetter__"; lit "__defineSetter__";
    lit "__lookupGetter__"; lit "__lookupSetter__"; lit "__proto__" ].

Definition inPrototype (key : jsstring) : bool :=
  existsb (jsstring_eqb key) objectPrototypeKeys.

(** What an inherited name evaluates to: [__proto__] is the prototype object
    (it has neither [nodeType] nor [content]), every other name a function. *)
Definition prototypeProp (key : jsstring) : JsValue :=
  if jsstring_eqb key (lit "__proto__") then JObj []
  else if inPrototype key then JFun
  else JUndefined.

(** [key in obj] for a plain object: own or inherited. *)
Definition hasProperty (v : JsValue) (key : jsstring) : bool :=
  match v with
  | JObj props =>
      match ownProp props key with
      | Some _ => true
      | None => inPrototype key
      end
  | _ => false
  end.

(** [obj[key]].  The program reads properties of objects only; on an array
    it reads [nodeType] and [content], which an array does not have. *)
Definition getProp (v : JsValue) (key : jsstring) : JsValue :=
  match v with
  | JObj props =>
      match ownProp props key with
      | Some x => x
      | None => prototypeProp key
      end
  | _ => JUndefined
  end.

(** ** Calls that may throw *)

Inductive JsError : Type :=
| TypeError (message : jsstring)
| Error (message : jsstring).

Inductive Outcome (A : Type) : Type :=
| Returned (a : A)
| Thrown (e : JsError).
Arguments Returned {A} a.
Arguments Thrown {A} e.

Definition isThrown {A} (o : Outcome A) : bool :=
  match o with Thrown _ => true | Returned _ => false end.

(** [Object.entries(v)] and [Object.keys(v)] throw a [TypeError] on
    [undefined] and [null]; an object gives its own properties in order, an
    array and a string their indexed elements, other primitives nothing. *)
Fixpoint indexed {A} (f : A -> JsValue) (l : list A) (n : nat) : list (jsstring * JsValue) :=
  match l with
  | [] => []
  | x :: l' => (indexKey n, f x) :: indexed f l' (S n)
  end.

Definition objectEntries (v : JsValue) : Outcome (list (jsstring * JsValue)) :=
  match v with
  | JUndefined | JNull =>
      Thrown (TypeError (lit "Cannot convert undefined or null to object"))
  | JObj props => Returned props
  | JArr elems => Returned (indexed (fun x => x) elems 0)
  | JStr s => Returned (indexed (fun c => JStr [c]) s 0)
  | JBool _ | JNum _ | JFun => Returned []
  end.

Definition objectKeys (v : JsValue) : Outcome (list jsstring) :=
  match objectEntries v with
  | Returned kvs => Returned (map fst kvs)
  | Thrown e => Thrown e
  end.

(** ** Entries, pages, requests and result rows *)

(** An entry of the content API.  Its [sys] part is taken as the API
    documents it (an identifier, and a content type that may be missing);
    its [fields] part is whatever value arrived. *)
Record Entry : Type := mkEntry {
  sys_id : jsstring;
  sys_contentType : option jsstring;
  fields : JsValue
}.

Record Request : Type := mkRequest {
  query : jsstring;
  req_locale : option jsstring;
  limit : Z;
  skip : Z;
  include : Z
}.

Record Page : Type := mkPage {
  items : list Entry;
  total : Z
}.

(** A result row of [index.js]. *)
Record Row : Type := mkRow {
  id : jsstring;
  contentType : jsstring;
  fieldName : jsstring;
  locale : jsstring;
  link : jsstring;
  snippet : jsstring
}.

(** A template hole [${x}] for a variable that may be [undefined]. *)
Definition interpolate (x : option jsstring) : jsstring :=
  match x with
  | Some s => s
  | None => lit "undefined"
  end.

(** [x || fallback] for a string that may be [undefined]. *)
Definition orElse (x : option jsstring) (fallback : jsstring) : jsstring :=
  match x with
  | Some s => if truthyStr s then s else fallback
  | None => fallback
  end.

(** [!x] for a string that may be [undefined]. *)
Definition missing (x : option jsstring) : bool :=
  match x with
  | Some s => negb (truthyStr s)
  | None => true
  end.

(** ** The functions of [index.js] *)

Section IndexJs.

(** The module-level constants of the script, and its two collaborators:
    the rich-text renderer and the client's [getEntries]. *)
Variable term : jsstring.
Variable cli_locale : jsstring.
Variable SPACE_ID : option jsstring.
Variable ENVIRONMENT_ID : option jsstring.
Variable documentToPlainTextString : JsValue -> Outcome jsstring.
Variable getEntries : Request -> Outcome Page.

(** The test of cases 2 and 3a: a truthy [nodeType] and a truthy [content]. *)
Definition hasRichTextShape (v : JsValue) : bool :=
  truthy (getProp v (lit "nodeType")) && truthy (getProp v (lit "content")).

(** [try { return documentToPlainTextString(v) } catch { return null }] *)
Definition renderOrNull (v : JsValue) : option jsstring :=
  match documentToPlainTextString v with
  | Returned s => Some s
  | Thrown _ => None
  end.

(** [extractStringContent(fieldValue, fieldName, locale)]; [None] is [null]. *)
Definition extractStringContent (fieldValue : JsValue) (fieldName loc : jsstring)
  : option jsstring :=
  match fieldValue with
  | JStr s => (* case 1: typeof fieldValue === "string" *) Some s
  | _ =>
      if truthy fieldValue && isObjectType fieldValue && negb (isArray fieldValue)
         && hasRichTextShape fieldValue
      then (* case 2: rich text *) renderOrNull fieldValue
      else if truthy fieldValue && isObjectType fieldValue && negb (isArray fieldValue)
      then (* case 3: localized field *)
        if hasProperty fieldValue loc then
          let value := getProp fieldValue loc in
          if truthy value && isObjectType value && hasRichTextShape value
          then (* case 3a: localized rich text *) renderOrNull value
          else match value with
               | JStr s => (* case 3b: localized string *) Some s
               | _ => None
               end
        else None
      else None
  end.

Definition entryLink (id : jsstring) : jsstring :=
  lit "https://app.contentful.com/spaces/" ++ interpolate SPACE_ID
  ++ lit "/environments/" ++ interpolate ENVIRONMENT_ID
  ++ lit "/entries/" ++ id.

(** [makeSnippet(txt, i)] *)
Definition makeSnippet (txt : jsstring) (i : Z) : jsstring :=
  let pre := slice txt (Z.max 0 (i - 30)) i in
  let post := slice txt (i + jslength term) (i + jslength term + 30) in
  (if 30 <? i then ellipsis else [])
  ++ pre ++ lit "[" ++ term ++ lit "]" ++ post
  ++ (if i + jslength term + 30 <? jslength txt then ellipsis else []).

(** [processStringValue(entry, fieldName, value, rows)]: the returned flag,
    and [rows] after the call. *)
Definition processStringValue (entry : Entry) (fieldName value : jsstring)
    (rows : list Row) : bool * list Row :=
  let idx := indexOf value term in
  if negb (idx =? -1) then
    (true,
     rows ++ [ {| id := sys_id entry;
                  contentType := orElse (sys_contentType entry) (lit "Unknown");
                  fieldName := fieldName;
                  locale := cli_locale;
                  link := entryLink (sys_id entry);
                  snippet := makeSnippet value idx |} ])
  else (false, rows).

(** The [for ... of Object.entries(entry.fields)] loop, over the entries
    still to visit. *)
Fixpoint fieldLoop (entry : Entry) (todo : list (jsstring * JsValue))
    (rows : list Row) : list Row :=
  match todo with
  | [] => rows
  | (fieldName, fieldValue) :: rest =>
      match extractStringContent fieldValue fieldName cli_locale with
      | Some value =>
          if truthyStr value then
            let '(matched, rows') := processStringValue entry fieldName value rows in
            if matched then rows' else fieldLoop entry rest rows'
          else fieldLoop entry rest rows
      | None => fieldLoop entry rest rows
      end
  end.

(** One turn of the [for (const entry of items)] loop.  [Object.entries]
    is evaluated before the first field is visited; nothing around it
    catches what it throws. *)
Definition processEntry (entry : Entry) (rows : list Row) : Outcome (list Row) :=
  match objectEntries (fields entry) with
  | Returned kvs => Returned (fieldLoop entry kvs rows)
  | Thrown e => Thrown e
  end.

Fixpoint entryLoop (todo : list Entry) (rows : list Row) : Outcome (list Row) :=
  match todo with
  | [] => Returned rows
  | entry :: rest =>
      match processEntry entry rows with
      | Returned rows' => entryLoop rest rows'
      | Thrown e => Thrown e
      end
  end.

Definition pageSize : Z := 1000.

Definition pageRequest (skip : Z) : Request :=
  {| query := term; req_locale := None; limit := pageSize; skip := skip; include := 1 |}.

(** The [do ... while (skip < total)] loop.  [sent] is the list of requests
    issued so far, oldest first.  The loop need not end (the API chooses
    [total] anew on every page), so it runs on [fuel]: [None] means the
    fuel ran out before the loop ended. *)
Fixpoint pageLoop (fuel : nat) (skip : Z) (rows : list Row) (sent : list Request)
  : option (list Request * Outcome (list Row)) :=
  match fuel with
  | O => None
  | S fuel' =>
      let sent' := sent ++ [pageRequest skip] in
      match getEntries (pageRequest skip) with
      | Thrown e => Some (sent', Thrown e)
      | Returned page =>
          match entryLoop (items page) rows with
          | Thrown e => Some (sent', Thrown e)
          | Returned rows' =>
              let skip' := skip + pageSize in
              if skip' <? total page
              then pageLoop fuel' skip' rows' sent'
              else Some (sent', Returned rows')
          end
      end
  end.

(** [searchContentful()] *)
Definition searchContentful (fuel : nat) : option (list Request * Outcome (list Row)) :=
  pageLoop fuel 0 [] [].

End IndexJs.

(** ** Start-up of [index.js]: arguments, environment, client *)

Record ProcessEnv : Type := mkEnv {
  env_SPACE_ID : option jsstring;
  env_CPA_TOKEN : option jsstring;
  env_ENVIRONMENT_ID : option jsstring
}.

Record ClientOptions : Type := mkClientOptions {
  space : option jsstring;
  environment : option jsstring;
  accessToken : option jsstring;
  host : jsstring
}.

Definition usageError : JsError :=
  Error (lit "Usage: node index.js " ++ [34%N] ++ lit "string to search"
         ++ [34%N] ++ lit " [locale]").

Definition configError : JsError :=
  Error (lit "Set SPACE_ID and CPA_TOKEN and ENVIRONMENT_ID env vars.").

(** The script from its first line to the end of its run: [argv] is
    [process.argv], [env] is [process.env] after [dotenv.config()],
    [createClient] gives the [getEntries] of the client it builds.  The
    result is the list of page requests sent, and what the run ended with. *)
Definition main (argv : list jsstring) (env : ProcessEnv)
    (createClient : ClientOptions -> Request -> Outcome Page)
    (documentToPlainTextString : JsValue -> Outcome jsstring)
    (fuel : nat) : option (list Request * Outcome (list Row)) :=
  let term := nth_error argv 2 in
  let locale := orElse (nth_error argv 3) (lit "en-US") in
  if missing term then Some ([], Thrown usageError)
  else
    if missing (env_SPACE_ID env) || missing (env_CPA_TOKEN env)
    then Some ([], Thrown configError)
    else
      let client :=
        createClient {| space := env_SPACE_ID env;
                        environment := env_ENVIRONMENT_ID env;
                        accessToken := env_CPA_TOKEN env;
                        host := lit "preview.contentful.com" |} in
      searchContentful (orElse term []) locale (env_SPACE_ID env)
        (env_ENVIRONMENT_ID env) documentToPlainTextString client fuel.

(** ** The other variants of the script *)

(** Their rows carry four properties. *)
Record DebugRow : Type := mkDebugRow {
  d_id : jsstring;
  d_fieldName : jsstring;
  d_link : jsstring;
  d_snippet : jsstring
}.

(** What the variants write to the console on their [catch] paths (their
    other console lines are progress reports and are left out). *)
Inductive ConsoleLine : Type :=
| LogLine (text : jsstring)
| ErrorLine (e : JsError).

(** [rows.length && rows.at(-1).id === e.sys.id] *)
Definition lastRowIs (rows : list DebugRow) (entryId : jsstring) : bool :=
  match rev rows with
  | [] => false
  | r :: _ => jsstring_eqb (d_id r) entryId
  end.

Section Variants.

Variable term : jsstring.
Variable cli_locale : jsstring.
Variable SPACE_ID : option jsstring.
Variable ENVIRONMENT_ID : option jsstring.
Variable documentToPlainTextString : JsValue -> Outcome jsstring.

Definition debugRow (e : Entry) (fieldName value : jsstring) (idx : Z) : DebugRow :=
  {| d_id := sys_id e;
     d_fieldName := fieldName;
     d_link := entryLink SPACE_ID ENVIRONMENT_ID (sys_id e);
     d_snippet := makeSnippet term value idx |}.

(** The guard both variants put before the field loop:
    [try { ... Object.keys(e.fields) ... } catch (error) { log; continue }].
    [Some lines] is the catch path with what it logs. *)
Definition entryGuard (e : Entry) : option (list ConsoleLine) :=
  match objectKeys (fields e) with
  | Returned _ => None
  | Thrown err =>
      Some [ LogLine (lit "Error processing entry: "
                      ++ orElse (Some (sys_id e)) (lit "unknown"));
             ErrorLine err ]
  end.

(** *** The variant that calls [extractStringContent] *)

Fixpoint fieldLoop1 (e : Entry) (todo : list (jsstring * JsValue))
    (rows : list DebugRow) : list DebugRow :=
  match todo with
  | [] => rows
  | (fieldName, fieldValue) :: rest =>
      let next := if lastRowIs rows (sys_id e) then rows else fieldLoop1 e rest rows in
      match extractStringContent documentToPlainTextString fieldValue fieldName cli_locale with
      | Some value =>
          if truthyStr value then
            let idx := indexOf value term in
            if negb (idx =? -1)
            then rows ++ [debugRow e fieldName value idx]
            else next
          else next
      | None => next
      end
  end.

Definition processEntry1 (e : Entry) (st : list DebugRow * list ConsoleLine)
  : Outcome (list DebugRow * list ConsoleLine) :=
  match entryGuard e with
  | Some lines => Returned (fst st, snd st ++ lines)
  | None =>
      match objectEntries (fields e) with
      | Returned kvs => Returned (fieldLoop1 e kvs (fst st), snd st)
      | Thrown err => Thrown err
      end
  end.

Fixpoint entryLoop1 (todo : list Entry) (st : list DebugRow * list ConsoleLine)
  : Outcome (list DebugRow * list ConsoleLine) :=
  match todo with
  | [] => Returned st
  | e :: rest =>
      match processEntry1 e st with
      | Returned st' => entryLoop1 rest st'
      | Thrown err => Thrown err
      end
  end.

(** *** The variant with the field cases written out in the loop *)

Definition processStringValue2 (e : Entry) (fieldName value : jsstring)
    (rows : list DebugRow) : bool * list DebugRow :=
  let idx := indexOf value term in
  if negb (idx =? -1)
  then (true, rows ++ [debugRow e fieldName value idx])
  else (false, rows).

(** [try { plainText = render(v); processStringValue(...) } catch { }] *)
Definition renderAndProcess2 (e : Entry) (fieldName : jsstring) (v : JsValue)
    (rows : list DebugRow) : list DebugRow :=
  match documentToPlainTextString v with
  | Returned plainText => snd (processStringValue2 e fieldName plainText rows)
  | Thrown _ => rows
  end.

Fixpoint fieldLoop2 (e : Entry) (todo : list (jsstring * JsValue))
    (rows : list DebugRow) : list DebugRow :=
  match todo with
  | [] => rows
  | (fieldName, fieldValue) :: rest =>
      (* the last statement of the body, and the next turn after it *)
      let next := if lastRowIs rows (sys_id e) then rows else fieldLoop2 e rest rows in
      match fieldValue with
      | JStr value =>
          (* processStringValue(e, fieldName, value, rows); continue; *)
          fieldLoop2 e rest (snd (processStringValue2 e fieldName value rows))
      | _ =>
          if truthy fieldValue && isObjectType fieldValue && negb (isArray fieldValue)
          then
            if hasRichTextShape fieldValue
            then (* try { ... } catch { ... } continue; *)
              fieldLoop2 e rest (renderAndProcess2 e fieldName fieldValue rows)
            else if hasProperty fieldValue cli_locale then
              let value := getProp fieldValue cli_locale in
              if truthy value && isObjectType value && hasRichTextShape value
              then fieldLoop2 e rest (renderAndProcess2 e fieldName value rows)
              else match value with
                   | JStr sv =>
                       let idx := indexOf sv term in
                       if negb (idx =? -1)
                       then rows ++ [debugRow e fieldName sv idx]
                       else next
                   | _ => next
                   end
            else next
          else next
      end
  end.

Definition processEntry2 (e : Entry) (st : list DebugRow * list ConsoleLine)
  : Outcome (list DebugRow * list ConsoleLine) :=
  match entryGuard e with
  | Some lines => Returned (fst st, snd st ++ lines)
  | None =>
      match objectEntries (fields e) with
      | Returned kvs => Returned (fieldLoop2 e kvs (fst st), snd st)
      | Thrown err => Thrown err
      end
  end.

Fixpoint entryLoop2 (todo : list Entry) (st : list DebugRow * list ConsoleLine)
  : Outcome (list DebugRow * list ConsoleLine) :=
  match todo with
  | [] => Returned st
  | e :: rest =>
      match processEntry2 e st with
      | Returned st' => entryLoop2 rest st'
      | Thrown err => Thrown err
      end
  end.

End Variants.

(** ** The page loop of the variants *)

Section VariantRun.

Variable term : jsstring.
Variable cli_locale : jsstring.
Variable getEntries : Request -> Outcome Page.

(** One pass of the variant's [for (const e of items)] loop over a page:
    the rows and the console before, and after. *)
Variable entryPass :
  list Entry -> list DebugRow * list ConsoleLine
  -> Outcome (list DebugRow * list ConsoleLine).

(** The variants send the locale along with the term. *)
Definition variantRequest (skip : Z) : Request :=
  {| query := term; req_locale := Some cli_locale; limit := pageSize;
     skip := skip; include := 1 |}.

(** The [do ... while (skip < total)] loop both variants run, on fuel as in
    [pageLoop]. *)
Fixpoint variantPageLoop (fuel : nat) (skip : Z)
    (st : list DebugRow * list ConsoleLine) (sent : list Request)
  : option (list Request * Outcome (list DebugRow * list ConsoleLine)) :=
  match fuel with
  | O => None
  | S fuel' =>
      let sent' := sent ++ [variantRequest skip] in
      match getEntries (variantRequest skip) with
      | Thrown e => Some (sent', Thrown e)
      | Returned page =>
          match entryPass (items page) st with
          | Thrown e => Some (sent', Thrown e)
          | Returned st' =>
              let skip' := skip + pageSize in
              if skip' <? total page
              then variantPageLoop fuel' skip' st' sent'
              else Some (sent', Returned st')
          end
      end
  end.

End VariantRun.

(** The run of the variant that calls [extractStringContent] ... *)
Definition variantRun1 (term cli_locale : jsstring) (SPACE_ID ENVIRONMENT_ID : option jsstring)
    (render : JsValue -> Outcome jsstring) (getEntries : Request -> Outcome Page)
    (fuel : nat) :=
  variantPageLoop term cli_locale getEntries
    (entryLoop1 term cli_locale SPACE_ID ENVIRONMENT_ID render) fuel 0 ([], []) [].

(** ... and of the variant with the field cases written out. *)
Definition variantRun2 (term cli_locale : jsstring) (SPACE_ID ENVIRONMENT_ID : option jsstring)
    (render : JsValue -> Outcome jsstring) (getEntries : Request -> Outcome Page)
    (fuel : nat) :=
  variantPageLoop term cli_locale getEntries
    (entryLoop2 term cli_locale SPACE_ID ENVIRONMENT_ID render) fuel 0 ([], []) [].

(** ** The context line of the console *)

(** [String.prototype.substring(start, end)]: both indices are clamped to
    the string, and swapped when the first is the larger. *)
Definition substring (s : jsstring) (start finish : Z) : jsstring :=
  let len := jslength s in
  let a := Z.min (Z.max start 0) len in
  let b := Z.min (Z.max finish 0) len in
  firstn (Z.to_nat (Z.max a b - Z.min a b)) (skipn (Z.to_nat (Z.min a b)) s).

(** The text after ["Context: "] that [processStringValue] writes to the
    console for a match at [idx] (in [index.js] when [DEBUG_MODE] is on, in
    the variants always). *)
Definition matchContext (term value : jsstring) (idx : Z) : jsstring :=
  let start := Z.max 0 (idx - 30) in
  let finish := Z.min (jslength value) (idx + jslength term + 30) in
  let context :=
    substring value start idx
    ++ lit "["
    ++ substring value idx (idx + jslength term)
    ++ lit "]"
    ++ substring value (idx + jslength term) finish in
  (if 0 <? start then lit "..." else [])
  ++ context
  ++ (if finish <? jslength value then lit "..." else []).

(** A term between brackets with up to 30 code units of context on each
    side and [mark] where context was cut. *)
Definition window (mark term before after : jsstring) : jsstring :=
  (if (30 <? length before)%nat then mark else [])
  ++ skipn (length before - 30) before
  ++ lit "[" ++ term ++ lit "]"
  ++ firstn 30 after
  ++ (if (30 <? length after)%nat then mark else []).

(** ** Occurrences of a term in a string *)

(** [t] occurs in [s] at offset [n]. *)
Definition occursAt (t s : jsstring) (n : nat) : Prop :=
  exists before after, s = before ++ t ++ after /\ length before = n.

(** [n] is the offset of the leftmost occurrence of [t] in [s]. *)
Definition leftmostAt (t s : jsstring) (n : nat) : Prop :=
  occursAt t s n /\ forall m, occursAt t s m -> (n <= m)%nat.

Definition contains (s t : jsstring) : Prop :=
  exists n, occursAt t s n.

(** The row [index.js] reports for a match of [term] at offset [idx] of the
    string [value] found in field [name] of [entry]. *)
Definition matchRow (term cli_locale : jsstring) (SPACE_ID ENVIRONMENT_ID : option jsstring)
    (entry : Entry) (name value : jsstring) (idx : Z) : Row :=
  {| id := sys_id entry;
     contentType := orElse (sys_contentType entry) (lit "Unknown");
     fieldName := name;
     locale := cli_locale;
     link := entryLink SPACE_ID ENVIRONMENT_ID (sys_id entry);
     snippet := makeSnippet term value idx |}.

(** A field the loop of [index.js] passes over: it normalises to nothing,
    to the empty string, or to a string without the term. *)
Definition passedOver (term cli_locale : jsstring)
    (render : JsValue -> Outcome jsstring) (kv : jsstring * JsValue) : Prop :=
  match extractStringContent render (snd kv) (fst kv) cli_locale with
  | None => True
  | Some value => value = [] \/ ~ contains value term
  end.

(** ** Pagination bookkeeping *)

(** The offsets [skip], [skip + pageSize], ... of [n] consecutive pages. *)
Fixpoint skipsFrom (skip : Z) (n : nat) : list Z :=
  match n with
  | O => []
  | S n' => skip :: skipsFrom (skip + pageSize) n'
  end.

(** [max 1 (ceil (T / pageSize))], for a total [T] that is not negative. *)
Definition pagesNeeded (T : Z) : nat :=
  Z.to_nat (Z.max 1 ((T + (pageSize - 1)) / pageSize)).

(** The number of entries asked for: the sum of the [limit]s of the
    requests sent. *)
Definition requestedEntries (sent : list Request) : Z :=
  fold_right (fun r acc => limit r + acc) 0 sent.

(** The number of entries of a collection of [T] entries that lie in the
    windows [skip, skip + limit) of the requests sent, each window counted
    on its own. *)
Definition coveredEntries (T : Z) (sent : list Request) : Z :=
  fold_right (fun r acc => Z.max 0 (Z.min (limit r) (T - skip r)) + acc) 0 sent.

(** An entry whose [fields] can be listed. *)
Definition wellFormedEntry (e : Entry) : Prop :=
  exists kvs, objectEntries (fields e) = Returned kvs.

(** ** Stand-ins for the collaborators, used in the worked examples *)

(** A content API that serves the window [skip, skip + limit) of a fixed
    collection and reports the size of the collection as [total]. *)
Definition serveCollection (db : list Entry) (req : Request) : Outcome Page :=
  Returned {| items := firstn (Z.to_nat (limit req)) (skipn (Z.to_nat (skip req)) db);
              total := Z.of_nat (length db) |}.

Definition textRenderer (text : jsstring) (v : JsValue) : Outcome jsstring :=
  Returned text.

Definition brokenRenderer (v : JsValue) : Outcome jsstring :=
  Thrown (Error (lit "malformed rich text")).

Definition article (ident : jsstring) (flds : JsValue) : Entry :=
  {| sys_id := ident; sys_contentType := Some (lit "article"); fields := flds |}.

Definition sampleEnv : ProcessEnv :=
  {| env_SPACE_ID := Some (lit "space1");
     env_CPA_TOKEN := Some (lit "token1");
     env_ENVIRONMENT_ID := Some (lit "master") |}.

(** [node index.js Foo] *)
Definition sampleArgv : list jsstring :=
  [lit "node"; lit "index.js"; lit "Foo"].

(** An entry with two plain string fields, both holding ["Foo"]. *)
Definition twoMatchingFields : Entry :=
  article (lit "entry1")
    (JObj [ (lit "title", JStr (lit "Foo Fighters"));
            (lit "summary", JStr (lit "All about Foo")) ]).

(** An entry that arrived without [fields], and a sound one after it. *)
Definition brokenEntry : Entry := article (lit "entry0") JUndefined.

Definition soundEntry : Entry :=
  article (lit "entry2") (JObj [ (lit "title", JStr (lit "Foo Fighters")) ]).

(** The environment with [ENVIRONMENT_ID] left unset. *)
Definition envWithoutEnvironment : ProcessEnv :=
  {| env_SPACE_ID := Some (lit "space1");
     env_CPA_TOKEN := Some (lit "token1");
     env_ENVIRONMENT_ID := None |}.

(** An entry that does not hold ["Foo"], and a collection of 1500 of them. *)
Definition quietEntry : Entry :=
  article (lit "entry3") (JObj [ (lit "title", JStr (lit "nothing of note")) ]).

Definition collection1500 : list Entry := repeat quietEntry 1500.

(** A locale map with an English string and a French number. *)
Definition sampleLocaleMap : list (jsstring * JsValue) :=
  [ (lit "en-US", JStr (lit "Hallo")); (lit "fr-FR", JNum 3) ].

(** A rich-text document: a node type and a content list. *)
Definition sampleDocument : JsValue :=
  JObj [ (lit "nodeType", JStr (lit "document")); (lit "content", JArr []) ].

(** [node index.js Foo de-DE] *)
Definition germanArgv : list jsstring :=
  [lit "node"; lit "index.js"; lit "Foo"; lit "de-DE"].

(** ** Further notions used in the properties *)

(** [a] is [b] with some elements left out, order kept. *)
Inductive subsequence {A : Type} : list A -> list A -> Prop :=
| subsequence_nil : subsequence [] []
| subsequence_skip (x : A) (a b : list A) : subsequence a b -> subsequence a (x :: b)
| subsequence_take (x : A) (a b : list A) : subsequence a b -> subsequence (x :: a) (x :: b).

(** The four properties of a row that the variants report as well. *)
Definition toDebugRow (r : Row) : DebugRow :=
  {| d_id := id r; d_fieldName := fieldName r; d_link := link r; d_snippet := snippet r |}.

(** A renderer that answers [text] for a value with the rich-text shape and
    throws on anything else. *)
Definition strictRenderer (text : jsstring) (v : JsValue) : Outcome jsstring :=
  if hasRichTextShape v then Returned text
  else Thrown (Error (lit "not a rich text document")).

(** An entry whose only field is a list of strings. *)
Definition taggedEntry : Entry :=
  article (lit "entry4") (JObj [ (lit "tags", JArr [ JStr (lit "Foo"); JStr (lit "Bar") ]) ]).

(** An API whose reported total is always beyond the next page. *)
Definition growingApi (req : Request) : Outcome Page :=
  Returned {| items := []; total := skip req + 2 * pageSize |}.

(** An API whose every call fails. *)
Definition failingApi (req : Request) : Outcome Page :=
  Thrown (Error (lit "401 Unauthorized")).

(** What the variants' guard writes to the console for an entry: two lines
    for an entry whose [fields] cannot be listed, nothing otherwise. *)
Definition guardLines (e : Entry) : list ConsoleLine :=
  match entryGuard e with
  | Some lines => lines
  | None => []
  end.

(** A field that is neither a plain string nor rich text, directly or
    under the locale key. *)
Definition noPlainOrRichText (loc : jsstring) (kv : jsstring * JsValue) : Prop :=
  isStringType (snd kv) = false
  /\ hasRichTextShape (snd kv) = false
  /\ hasRichTextShape (getProp (snd kv) loc) = false.

(** A localized entry and a list of tags: no plain string, no rich text. *)
Definition localizedFields : list (jsstring * JsValue) :=
  [ (lit "title", JObj [ (lit "en-US", JStr (lit "Foo Fighters")) ]);
    (lit "tags", JArr [ JStr (lit "Foo"); JStr (lit "Bar") ]) ].

(** The rows after a pass over [entries] that runs the field loop [scan] on
    every entry whose [fields] can be listed and leaves the rows alone at
    every other entry. *)
Definition scanReadable
    (scan : Entry -> list (jsstring * JsValue) -> list DebugRow -> list DebugRow)
    (entries : list Entry) (rows : list DebugRow) : list DebugRow :=
  fold_left
    (fun acc e =>
       match objectEntries (fields e) with
       | Returned kvs => scan e kvs acc
       | Thrown _ => acc
       end)
    entries rows.

(** * Properties *)

(** ** Strings *)

Lemma startsWith_prefix (t s : jsstring) :
  startsWith t s = true <-> exists rest, s = t ++ rest.
Proof.
  revert s; induction t as [|c t IH]; intros s; simpl.
  - split; [intros _; now exists s | reflexivity].
  - destruct s as [|d s].
    + split; [discriminate | intros [rest H]; discriminate].
    + rewrite andb_true_iff, N.eqb_eq, IH. split.
      * intros [-> [rest ->]]. now exists rest.
      * intros [rest H]. injection H as -> ->. split; [reflexivity | now exists rest].
Qed.

Lemma occursAt_zero (t s : jsstring) :
  occursAt t s 0 <-> startsWith t s = true.
Proof.
  rewrite startsWith_prefix. split.
  - intros (before & after & -> & Hlen).
    destruct before; [|discriminate]. now exists after.
  - intros [rest ->]. now exists [], rest.
Qed.

Lemma occursAt_succ (t : jsstring) (c : codeunit) (s : jsstring) (n : nat) :
  occursAt t (c :: s) (S n) <-> occursAt t s n.
Proof.
  split.
  - intros (before & after & H & Hlen).
    destruct before as [|b before]; [discriminate|].
    simpl in H. injection H as _ ->. injection Hlen as Hlen.
    now exists before, after.
  - intros (before & after & -> & Hlen).
    exists (c :: before), after. simpl. now rewrite Hlen.
Qed.

Lemma occursAt_nil (t : jsstring) (n : nat) :
  occursAt t [] n -> t = [] /\ n = 0%nat.
Proof.
  intros (before & after & H & Hlen).
  symmetry in H. apply app_eq_nil in H as [-> H].
  apply app_eq_nil in H as [-> _]. now subst.
Qed.

(** [indexOf] finds nothing exactly when the term does not occur, and
    otherwise answers with the leftmost offset. *)
Lemma indexOfFrom_spec (t s : jsstring) (k : Z) :
  0 <= k ->
  (indexOfFrom s t k = -1 /\ ~ contains s t)
  \/ (exists n, indexOfFrom s t k = k + Z.of_nat n /\ leftmostAt t s n).
Proof.
  revert k; induction s as [|c s IH]; intros k Hk; simpl indexOfFrom.
  - destruct (startsWith t []) eqn:E.
    + right. exists 0%nat. split; [lia|]. split.
      * now apply occursAt_zero.
      * intros; lia.
    + left. split; [reflexivity|]. intros [n H].
      apply occursAt_nil in H as [-> _]. discriminate.
  - destruct (startsWith t (c :: s)) eqn:E.
    + right. exists 0%nat. split; [lia|]. split.
      * now apply occursAt_zero.
      * intros; lia.
    + destruct (IH (k + 1)) as [[Hm Hno] | (n & Hn & Hocc & Hleast)]; [lia| |].
      * left. split; [assumption|]. intros [[|n] H].
        -- apply occursAt_zero in H. congruence.
        -- apply occursAt_succ in H. apply Hno. now exists n.
      * right. exists (S n). split; [lia|]. split.
        -- now apply occursAt_succ.
        -- intros [|m] Hm.
           ++ apply occursAt_zero in Hm. congruence.
           ++ apply occursAt_succ in Hm. apply Hleast in Hm. lia.
Qed.

Lemma indexOf_spec (t s : jsstring) :
  (indexOf s t = -1 /\ ~ contains s t)
  \/ (exists n, indexOf s t = Z.of_nat n /\ leftmostAt t s n).
Proof.
  unfold indexOf. destruct (indexOfFrom_spec t s 0) as [H | (n & H & L)]; [lia| |].
  - now left.
  - right. exists n. now split.
Qed.

Lemma indexOf_found_iff (t s : jsstring) :
  indexOf s t <> -1 <-> contains s t.
Proof.
  destruct (indexOf_spec t s) as [[H Hno] | (n & H & Hocc & _)].
  - split; [congruence | intros; contradiction].
  - split; [intros _; now exists n | intros _; lia].
Qed.

(** The two slices of [makeSnippet], at an offset where the term occurs. *)
Lemma slice_before (before rest : jsstring) :
  let i := Z.of_nat (length before) in
  slice (before ++ rest) (Z.max 0 (i - 30)) i = skipn (length before - 30) before.
Proof.
  intros i. unfold slice, jslength. rewrite length_app.
  assert (Hi : i = Z.of_nat (length before)) by reflexivity.
  destruct (Z.max 0 (i - 30) <? 0) eqn:E1; [apply Z.ltb_lt in E1; lia|].
  destruct (i <? 0) eqn:E2; [apply Z.ltb_lt in E2; lia|].
  replace (Z.to_nat (Z.min (Z.max 0 (i - 30)) (Z.of_nat (length before + length rest))))
    with (length before - 30)%nat by lia.
  rewrite skipn_app.
  replace (length before - 30 - length before)%nat with 0%nat by lia.
  simpl skipn at 2.
  rewrite firstn_app.
  rewrite length_skipn.
  match goal with |- firstn ?a _ ++ firstn ?b _ = _ =>
    replace b with 0%nat by lia;
    replace a with (length (skipn (length before - 30) before))
      by (rewrite length_skipn; lia)
  end.
  rewrite firstn_all. simpl. now rewrite app_nil_r.
Qed.

Lemma slice_after (before t after : jsstring) :
  let i := Z.of_nat (length before) in
  slice (before ++ t ++ after) (i + jslength t) (i + jslength t + 30) = firstn 30 after.
Proof.
  intros i. unfold slice, jslength. rewrite !length_app.
  assert (Hi : i = Z.of_nat (length before)) by reflexivity.
  destruct (i + Z.of_nat (length t) <? 0) eqn:E1; [apply Z.ltb_lt in E1; lia|].
  destruct (i + Z.of_nat (length t) + 30 <? 0) eqn:E2; [apply Z.ltb_lt in E2; lia|].
  match goal with |- firstn _ (skipn ?a _) = _ =>
    replace a with (length (before ++ t)) by (rewrite length_app; lia)
  end.
  rewrite app_assoc, skipn_app, skipn_all, Nat.sub_diag.
  change (skipn 0 after) with after. rewrite app_nil_l.
  match goal with |- firstn ?a _ = _ =>
    replace a with (Nat.min 30 (length after)) by lia
  end.
  destruct (Nat.le_ge_cases 30 (length after)) as [H | H].
  - now rewrite Nat.min_l.
  - rewrite Nat.min_r by assumption. rewrite firstn_all.
    symmetry. now apply firstn_all2.
Qed.

(** ** The snippet maker *)

(** The text [makeSnippet] builds at an offset where the term occurs. *)
Lemma makeSnippet_at_occurrence (term before after : jsstring) :
  makeSnippet term (before ++ term ++ after) (Z.of_nat (length before))
  = (if 30 <? Z.of_nat (length before) then ellipsis else [])
    ++ skipn (length before - 30) before
    ++ lit "[" ++ term ++ lit "]"
    ++ firstn 30 after
    ++ (if (30 <? length after)%nat then ellipsis else []).
Proof.
  unfold makeSnippet.
  rewrite slice_before, slice_after.
  repeat f_equal.
  unfold jslength. rewrite !length_app.
  destruct (30 <? length after)%nat eqn:E.
  - apply Nat.ltb_lt in E.
    destruct (Z.ltb_spec (Z.of_nat (length before) + Z.of_nat (length term) + 30)
                (Z.of_nat (length before + (length term + length after))));
      [reflexivity | lia].
  - apply Nat.ltb_ge in E.
    destruct (Z.ltb_spec (Z.of_nat (length before) + Z.of_nat (length term) + 30)
                (Z.of_nat (length before + (length term + length after))));
      [lia | reflexivity].
Qed.

Lemma context_lengths (before after : jsstring) :
  length (skipn (length before - 30) before) = Nat.min 30 (length before)
  /\ length (firstn 30 after) = Nat.min 30 (length after).
Proof.
  rewrite length_skipn, length_firstn. lia.
Qed.

(** C2. Let [term] occur in [txt] at offset [i], so that [txt] is [before],
    then [term], then [after], with [i] the length of [before].  The snippet
    is an optional leading ellipsis, the last [min 30 i] code units of
    [before], the term between square brackets, the first
    [min 30 (length after)] code units of [after], and an optional trailing
    ellipsis.  The leading ellipsis is there exactly when [i] exceeds 30, the
    trailing one exactly when more than 30 code units follow the match. *)
Theorem makeSnippet_window (term before after : jsstring) :
  exists lead pre post trail,
    makeSnippet term (before ++ term ++ after) (Z.of_nat (length before))
    = lead ++ pre ++ lit "[" ++ term ++ lit "]" ++ post ++ trail
    /\ pre = skipn (length before - 30) before
    /\ length pre = Nat.min 30 (length before)
    /\ post = firstn 30 after
    /\ length post = Nat.min 30 (length after)
    /\ (lead = ellipsis \/ lead = [])
    /\ (lead = ellipsis <-> 30 < Z.of_nat (length before))
    /\ (trail = ellipsis \/ trail = [])
    /\ (trail = ellipsis <-> (30 < length after)%nat).
Proof.
  exists (if 30 <? Z.of_nat (length before) then ellipsis else []).
  exists (skipn (length before - 30) before), (firstn 30 after).
  exists (if (30 <? length after)%nat then ellipsis else []).
  destruct (context_lengths before after) as [Hpre Hpost].
  split; [apply makeSnippet_at_occurrence|].
  repeat split; try assumption.
  - destruct (30 <? Z.of_nat (length before)); [now left | now right].
  - destruct (Z.ltb_spec 30 (Z.of_nat (length before))); [trivial | discriminate].
  - intros H. now apply Z.ltb_lt in H as ->.
  - destruct (30 <? length after)%nat; [now left | now right].
  - destruct (Nat.ltb_spec 30 (length after)); [trivial | discriminate].
  - intros H. now apply Nat.ltb_lt in H as ->.
Qed.

(** ** The match test *)

Section MatchTest.

Variable term : jsstring.
Variable cli_locale : jsstring.
Variable SPACE_ID : option jsstring.
Variable ENVIRONMENT_ID : option jsstring.

Let psv := processStringValue term cli_locale SPACE_ID ENVIRONMENT_ID.
Let rowAt := matchRow term cli_locale SPACE_ID ENVIRONMENT_ID.

Lemma processStringValue_found (entry : Entry) (name value : jsstring)
    (rows : list Row) (n : nat) :
  leftmostAt term value n ->
  psv entry name value rows = (true, rows ++ [rowAt entry name value (Z.of_nat n)]).
Proof.
  intros [Hocc Hleast]. unfold psv, processStringValue.
  destruct (indexOf_spec term value) as [[_ Hno] | (m & Hm & Hocc' & Hleast')].
  - exfalso. apply Hno. now exists n.
  - assert (m = n) as -> by (apply Nat.le_antisymm; auto).
    rewrite Hm.
    destruct (Z.eqb_spec (Z.of_nat n) (-1)); [lia | reflexivity].
Qed.

Lemma processStringValue_not_found (entry : Entry) (name value : jsstring)
    (rows : list Row) :
  ~ contains value term ->
  psv entry name value rows = (false, rows).
Proof.
  intros Hno. unfold psv, processStringValue.
  destruct (indexOf_spec term value) as [[H _] | (m & _ & Hocc & _)].
  - now rewrite H.
  - exfalso. apply Hno. now exists m.
Qed.

Lemma contains_leftmost (value : jsstring) :
  contains value term -> exists n, leftmostAt term value n.
Proof.
  intros Hc. destruct (indexOf_spec term value) as [[_ Hno] | (n & _ & L)].
  - contradiction.
  - now exists n.
Qed.

Lemma contains_dec (value : jsstring) :
  contains value term \/ ~ contains value term.
Proof.
  destruct (indexOf_spec term value) as [[_ Hno] | (n & _ & Hocc & _)].
  - now right.
  - left. now exists n.
Qed.

End MatchTest.

(** C6. The match test compares code units exactly.  For every string a
    field normalises to, [processStringValue] run with the term ["Foo"]
    appends a row when the string contains ["Foo"] and leaves the rows alone
    when it does not; whether the API's coarse filter returned the entry
    plays no part.  A field holding ["foo"] gives no row, a field holding
    ["Foo"] gives one. *)
Theorem exact_match_is_case_sensitive
    (cli_locale : jsstring) (SPACE_ID ENVIRONMENT_ID : option jsstring)
    (render : JsValue -> Outcome jsstring)
    (entry : Entry) (name : jsstring) (rows : list Row) :
  (forall value,
      (contains value (lit "Foo")
       /\ exists r, processStringValue (lit "Foo") cli_locale SPACE_ID ENVIRONMENT_ID
                      entry name value rows = (true, rows ++ [r]))
      \/ (~ contains value (lit "Foo")
          /\ processStringValue (lit "Foo") cli_locale SPACE_ID ENVIRONMENT_ID
               entry name value rows = (false, rows)))
  /\ fieldLoop (lit "Foo") cli_locale SPACE_ID ENVIRONMENT_ID render
       entry [(name, JStr (lit "foo"))] rows = rows
  /\ fieldLoop (lit "Foo") cli_locale SPACE_ID ENVIRONMENT_ID render
       entry [(name, JStr (lit "Foo"))] rows
     = rows ++ [matchRow (lit "Foo") cli_locale SPACE_ID ENVIRONMENT_ID
                  entry name (lit "Foo") 0].
Proof.
  split; [|split; reflexivity].
  intros value. destruct (contains_dec (lit "Foo") value) as [Hc | Hno].
  - left. split; [assumption|].
    destruct (contains_leftmost _ _ Hc) as [n L].
    eexists. apply (processStringValue_found _ _ _ _ _ _ _ _ n L).
  - right. split; [assumption|].
    now apply processStringValue_not_found.
Qed.

(** C10. When the string a field normalises to contains the term, once or
    several times, the row [processStringValue] appends has its snippet
    built at the leftmost occurrence: the string splits as [before], the
    term, [after], no occurrence starts earlier than the end of [before], and
    the snippet is [makeSnippet] at that offset, showing the end of [before]
    and the start of [after]. *)
Theorem snippet_at_leftmost_occurrence
    (term cli_locale : jsstring) (SPACE_ID ENVIRONMENT_ID : option jsstring)
    (entry : Entry) (name value : jsstring) (rows : list Row) :
  contains value term ->
  exists before after r,
    value = before ++ term ++ after
    /\ (forall m, occursAt term value m -> (length before <= m)%nat)
    /\ processStringValue term cli_locale SPACE_ID ENVIRONMENT_ID
         entry name value rows = (true, rows ++ [r])
    /\ snippet r = makeSnippet term value (Z.of_nat (length before))
    /\ snippet r
       = (if 30 <? Z.of_nat (length before) then ellipsis else [])
         ++ skipn (length before - 30) before
         ++ lit "[" ++ term ++ lit "]"
         ++ firstn 30 after
         ++ (if (30 <? length after)%nat then ellipsis else []).
Proof.
  intros Hc.
  destruct (contains_leftmost _ _ Hc) as [n L].
  pose proof L as [(before & after & Hsplit & Hlen) Hleast].
  exists before, after.
  exists (matchRow term cli_locale SPACE_ID ENVIRONMENT_ID entry name value (Z.of_nat n)).
  subst n. split; [assumption|]. split; [assumption|].
  split; [apply processStringValue_found; exact L|].
  split; [reflexivity|].
  simpl snippet. rewrite Hsplit. apply makeSnippet_at_occurrence.
Qed.

(** ** The field normaliser *)

Section Normaliser.

Variable render : JsValue -> Outcome jsstring.

Let normalize := extractStringContent render.

Lemma richTextShape_is_object (v : JsValue) :
  hasRichTextShape v = true -> exists props, v = JObj props.
Proof.
  destruct v; try discriminate. intros _. now eexists.
Qed.

Lemma normalize_plain_string (s name loc : jsstring) :
  normalize (JStr s) name loc = Some s.
Proof. reflexivity. Qed.

Lemma normalize_rich_text (d : JsValue) (name loc : jsstring) :
  hasRichTextShape d = true ->
  normalize d name loc = renderOrNull render d.
Proof.
  intros H. destruct (richTextShape_is_object d H) as [props ->].
  unfold normalize, extractStringContent. simpl truthy. simpl isObjectType.
  simpl isArray. now rewrite H.
Qed.

(** What the normaliser does with a locale map, case by case. *)
Lemma normalize_locale_map (props : list (jsstring * JsValue)) (name loc : jsstring) :
  hasRichTextShape (JObj props) = false ->
  normalize (JObj props) name loc
  = match ownProp props loc with
    | None => None
    | Some value =>
        if truthy value && isObjectType value && hasRichTextShape value
        then renderOrNull render value
        else match value with
             | JStr s => Some s
             | _ => None
             end
    end.
Proof.
  intros H. unfold normalize, extractStringContent.
  simpl truthy. simpl isObjectType. simpl isArray. rewrite H. simpl andb.
  unfold hasProperty, getProp.
  destruct (ownProp props loc) as [value|]; [reflexivity|].
  unfold prototypeProp.
  destruct (jsstring_eqb loc (lit "__proto__")).
  - now destruct (inPrototype loc).
  - now destruct (inPrototype loc).
Qed.

End Normaliser.

(** C7. Let the field value be an object that is not a rich-text document,
    that is, a locale map.  If the requested locale is not one of its keys,
    the normaliser answers "absent".  If the locale is a key and its value is
    a string, the normaliser answers that string.  If the locale is a key and
    its value is neither a string nor a rich-text document, the normaliser
    answers "absent". *)
Theorem normalize_locale_map_cases
    (render : JsValue -> Outcome jsstring)
    (props : list (jsstring * JsValue)) (name loc : jsstring) :
  hasRichTextShape (JObj props) = false ->
  (ownProp props loc = None ->
   extractStringContent render (JObj props) name loc = None)
  /\ (forall s, ownProp props loc = Some (JStr s) ->
      extractStringContent render (JObj props) name loc = Some s)
  /\ (forall value, ownProp props loc = Some value ->
      isStringType value = false ->
      hasRichTextShape value = false ->
      extractStringContent render (JObj props) name loc = None).
Proof.
  intros H. rewrite (normalize_locale_map render props name loc H).
  split; [|split].
  - now intros ->.
  - intros s ->. unfold isObjectType. simpl typeof. now rewrite andb_false_r.
  - intros value -> Hs Hr. rewrite Hr, andb_false_r.
    destruct value; try reflexivity. discriminate.
Qed.

(** ** The field loop and the entry loop of [index.js] *)

Section Driver.

Variable term : jsstring.
Variable cli_locale : jsstring.
Variable SPACE_ID : option jsstring.
Variable ENVIRONMENT_ID : option jsstring.
Variable render : JsValue -> Outcome jsstring.

Let normalize := extractStringContent render.
Let scan := fieldLoop term cli_locale SPACE_ID ENVIRONMENT_ID render.
Let rowAt := matchRow term cli_locale SPACE_ID ENVIRONMENT_ID.

Let skipped := passedOver term cli_locale render.

Lemma fieldLoop_absent (entry : Entry) (name : jsstring) (v : JsValue)
    (rest : list (jsstring * JsValue)) (rows : list Row) :
  normalize v name cli_locale = None ->
  scan entry ((name, v) :: rest) rows = scan entry rest rows.
Proof.
  intros H. unfold scan, normalize in *. simpl. now rewrite H.
Qed.

Lemma fieldLoop_passedOver (entry : Entry) (kv : jsstring * JsValue)
    (rest : list (jsstring * JsValue)) (rows : list Row) :
  skipped kv ->
  scan entry (kv :: rest) rows = scan entry rest rows.
Proof.
  destruct kv as [name v]. unfold skipped, passedOver, scan, normalize. simpl.
  destruct (extractStringContent render v name cli_locale) as [value|]; [|reflexivity].
  intros [-> | Hno]; [reflexivity|].
  destruct value; [reflexivity|]. simpl truthyStr. cbv iota.
  now rewrite (processStringValue_not_found term cli_locale SPACE_ID ENVIRONMENT_ID
                 entry name _ rows Hno).
Qed.

(** The first field that holds the term decides the row, and nothing after
    it is visited: the fields after it do not appear in the result. *)
Lemma fieldLoop_first_match (entry : Entry) (pre rest : list (jsstring * JsValue))
    (name : jsstring) (v : JsValue) (value : jsstring) (n : nat) (rows : list Row) :
  Forall skipped pre ->
  normalize v name cli_locale = Some value ->
  value <> [] ->
  leftmostAt term value n ->
  scan entry (pre ++ (name, v) :: rest) rows
  = rows ++ [rowAt entry name value (Z.of_nat n)].
Proof.
  intros Hpre Hv Hne L. induction Hpre as [|kv pre Hkv _ IH].
  - unfold scan, normalize in *. simpl. rewrite Hv.
    destruct value; [contradiction|]. simpl truthyStr. cbv iota.
    now rewrite (processStringValue_found term cli_locale SPACE_ID ENVIRONMENT_ID
                   entry name _ rows n L).
  - simpl app. now rewrite fieldLoop_passedOver.
Qed.

(** The loop appends at most one row, and that row describes the entry. *)
Lemma fieldLoop_at_most_one (entry : Entry) (kvs : list (jsstring * JsValue))
    (rows : list Row) :
  scan entry kvs rows = rows
  \/ exists name value idx, scan entry kvs rows = rows ++ [rowAt entry name value idx].
Proof.
  induction kvs as [|[name v] rest IH]; [now left|].
  unfold scan in *. simpl.
  destruct (extractStringContent render v name cli_locale) as [value|]; [|exact IH].
  destruct (truthyStr value); [|exact IH].
  unfold processStringValue.
  destruct (negb (indexOf value term =? -1)); [|exact IH].
  right. now exists name, value, (indexOf value term).
Qed.

Lemma fieldLoop_none (entry : Entry) (kvs : list (jsstring * JsValue)) (rows : list Row) :
  Forall skipped kvs -> scan entry kvs rows = rows.
Proof.
  induction 1 as [|kv rest Hkv _ IH]; [reflexivity|].
  now rewrite fieldLoop_passedOver.
Qed.

Lemma entryLoop_wellFormed (entries : list Entry) (rows : list Row) :
  Forall wellFormedEntry entries ->
  exists rows', entryLoop term cli_locale SPACE_ID ENVIRONMENT_ID render entries rows
                = Returned rows'.
Proof.
  intros H; revert rows. induction H as [|e rest [kvs He] _ IH]; intros rows; simpl.
  - now exists rows.
  - unfold processEntry. rewrite He. apply IH.
Qed.

(** Rows already collected stay, rows added carry the requested locale, and
    an entry adds at most one of them. *)
Lemma entryLoop_rows (entries : list Entry) (rows rows' : list Row) :
  entryLoop term cli_locale SPACE_ID ENVIRONMENT_ID render entries rows = Returned rows' ->
  exists added,
    rows' = rows ++ added
    /\ (length added <= length entries)%nat
    /\ Forall (fun r => locale r = cli_locale) added.
Proof.
  revert rows rows'. induction entries as [|e rest IH]; intros rows rows'; simpl.
  - intros [= <-]. exists []. rewrite app_nil_r. auto.
  - unfold processEntry. destruct (objectEntries (fields e)) as [kvs|err]; [|discriminate].
    intros H. apply IH in H as (added & -> & Hlen & Hloc).
    destruct (fieldLoop_at_most_one e kvs rows) as [E | (name & value & idx & E)];
      unfold scan in E; rewrite E.
    + exists added. auto.
    + exists (rowAt e name value idx :: added). rewrite <- app_assoc. simpl.
      repeat split; [lia|]. constructor; [reflexivity | assumption].
Qed.

End Driver.

(** C8. Let [d] be a rich-text document: a value with a node-type tag and a
    content list.  Met directly as a field value, or under the requested
    locale key of a locale map, the normaliser answers the renderer's text
    for [d], or "absent" when the renderer throws.  A renderer that throws
    does not end the field loop, and the fields after the rich-text field
    are still searched: the entry's row is that of the first later field
    that holds the term, and the rows stay as they were only when no later
    field holds it. *)
Theorem rich_text_rendered_or_absent
    (term cli_locale : jsstring) (SPACE_ID ENVIRONMENT_ID : option jsstring)
    (render : JsValue -> Outcome jsstring)
    (d : JsValue) (name : jsstring) (props : list (jsstring * JsValue)) :
  hasRichTextShape d = true ->
  extractStringContent render d name cli_locale
  = match render d with Returned text => Some text | Thrown _ => None end
  /\ (hasRichTextShape (JObj props) = false ->
      ownProp props cli_locale = Some d ->
      extractStringContent render (JObj props) name cli_locale
      = match render d with Returned text => Some text | Thrown _ => None end)
  /\ (forall err entry rows fieldValue,
      render d = Thrown err ->
      fieldValue = d
      \/ (fieldValue = JObj props
          /\ hasRichTextShape (JObj props) = false
          /\ ownProp props cli_locale = Some d) ->
      (forall pre name' v' rest' value n,
          Forall (passedOver term cli_locale render) pre ->
          extractStringContent render v' name' cli_locale = Some value ->
          value <> [] ->
          leftmostAt term value n ->
          fieldLoop term cli_locale SPACE_ID ENVIRONMENT_ID render entry
            ((name, fieldValue) :: pre ++ (name', v') :: rest') rows
          = rows ++ [matchRow term cli_locale SPACE_ID ENVIRONMENT_ID
                       entry name' value (Z.of_nat n)])
      /\ (forall rest,
            Forall (passedOver term cli_locale render) rest ->
            fieldLoop term cli_locale SPACE_ID ENVIRONMENT_ID render entry
              ((name, fieldValue) :: rest) rows
            = rows)).
Proof.
  intros Hd.
  pose proof (normalize_rich_text render d name cli_locale Hd) as Hdirect.
  assert (Hnested : hasRichTextShape (JObj props) = false ->
                    ownProp props cli_locale = Some d ->
                    extractStringContent render (JObj props) name cli_locale
                    = renderOrNull render d).
  { intros Hp Hk. rewrite (normalize_locale_map render props name cli_locale Hp), Hk.
    destruct (richTextShape_is_object d Hd) as [dprops ->].
    simpl truthy. simpl isObjectType. now rewrite Hd. }
  unfold renderOrNull in *.
  split; [exact Hdirect|]. split; [exact Hnested|].
  intros err entry rows fieldValue Herr Hshape.
  assert (Hover : passedOver term cli_locale render (name, fieldValue)).
  { unfold passedOver. cbn [fst snd].
    destruct Hshape as [-> | (-> & Hp & Hk)].
    - now rewrite Hdirect, Herr.
    - now rewrite (Hnested Hp Hk), Herr. }
  split.
  - intros pre name' v' rest' value n Hpre Hv Hne L.
    apply (fieldLoop_first_match term cli_locale SPACE_ID ENVIRONMENT_ID render
             entry ((name, fieldValue) :: pre) rest' name' v' value n rows);
      [now constructor | assumption | assumption | assumption].
  - intros rest Hrest.
    apply (fieldLoop_none term cli_locale SPACE_ID ENVIRONMENT_ID render
             entry ((name, fieldValue) :: rest) rows).
    now constructor.
Qed.

(** ** The page loop of [index.js] *)

Section PageLoop.

Variable term : jsstring.
Variable cli_locale : jsstring.
Variable SPACE_ID : option jsstring.
Variable ENVIRONMENT_ID : option jsstring.
Variable render : JsValue -> Outcome jsstring.
Variable getEntries : Request -> Outcome Page.

Let loop := pageLoop term cli_locale SPACE_ID ENVIRONMENT_ID render getEntries.

(** Every row of a finished run carries the requested locale. *)
Lemma pageLoop_locale (fuel : nat) (sk : Z) (rows : list Row) (sent : list Request)
    (sent' : list Request) (rows' : list Row) :
  Forall (fun r => locale r = cli_locale) rows ->
  loop fuel sk rows sent = Some (sent', Returned rows') ->
  Forall (fun r => locale r = cli_locale) rows'.
Proof.
  unfold loop. revert sk rows sent.
  induction fuel as [|fuel IH]; intros sk rows sent Hrows; simpl; [discriminate|].
  destruct (getEntries (pageRequest term sk)) as [page|err]; [|discriminate].
  destruct (entryLoop _ _ _ _ _ (items page) rows) as [rows1|err] eqn:E; [|discriminate].
  apply entryLoop_rows in E as (added & -> & _ & Hadded).
  assert (Hall : Forall (fun r => locale r = cli_locale) (rows ++ added))
    by (apply Forall_app; now split).
  destruct (sk + pageSize <? total page).
  - now apply IH.
  - now intros [= _ <-].
Qed.


End PageLoop.

(** C9. Every row a run returns has, as its [locale], the locale given on
    the command line, or ["en-US"] when none (or an empty one) was given.
    This holds whatever the shape of the matched field was: a plain string, a
    rich-text document, or the entry of a locale map. *)
Theorem rows_carry_requested_locale
    (argv : list jsstring) (env : ProcessEnv)
    (createClient : ClientOptions -> Request -> Outcome Page)
    (render : JsValue -> Outcome jsstring)
    (fuel : nat) (sent : list Request) (rows : list Row) :
  main argv env createClient render fuel = Some (sent, Returned rows) ->
  Forall (fun r => locale r = orElse (nth_error argv 3) (lit "en-US")) rows.
Proof.
  unfold main.
  destruct (missing (nth_error argv 2)); [discriminate|].
  destruct (missing (env_SPACE_ID env) || missing (env_CPA_TOKEN env)); [discriminate|].
  unfold searchContentful. apply pageLoop_locale. constructor.
Qed.

(** ** Pagination against a constant total *)

Lemma requestedEntries_app (a b : list Request) :
  requestedEntries (a ++ b) = requestedEntries a + requestedEntries b.
Proof.
  unfold requestedEntries. induction a as [|r a IH]; simpl; [reflexivity | lia].
Qed.

Lemma requestedEntries_pages (term : jsstring) (sk : Z) (n : nat) :
  requestedEntries (map (pageRequest term) (skipsFrom sk n)) = pageSize * Z.of_nat n.
Proof.
  revert sk; induction n as [|n IH]; intros sk; [reflexivity|].
  cbn [skipsFrom map]. unfold requestedEntries in *. cbn [fold_right].
  rewrite IH. cbn [limit pageRequest]. lia.
Qed.

Lemma coveredEntries_pages (term : jsstring) (T sk : Z) (n : nat) :
  0 <= sk ->
  coveredEntries T (map (pageRequest term) (skipsFrom sk n))
  = Z.max 0 (Z.min (pageSize * Z.of_nat n) (T - sk)).
Proof.
  revert sk; induction n as [|n IH]; intros sk Hsk.
  - cbn. lia.
  - cbn [skipsFrom map]. unfold coveredEntries in *. cbn [fold_right].
    rewrite IH by (unfold pageSize; lia).
    cbn [limit skip pageRequest]. unfold pageSize. lia.
Qed.

Lemma length_skipsFrom (sk : Z) (n : nat) : length (skipsFrom sk n) = n.
Proof.
  revert sk; induction n as [|n IH]; intros sk; simpl; [reflexivity | now rewrite IH].
Qed.

(** [pagesNeeded T] is the least positive number of pages that reaches [T]. *)
Lemma pagesNeeded_spec (T : Z) :
  0 <= T ->
  (1 <= pagesNeeded T)%nat
  /\ T <= pageSize * Z.of_nat (pagesNeeded T)
  /\ (pageSize * (Z.of_nat (pagesNeeded T) - 1) < T \/ pagesNeeded T = 1%nat).
Proof.
  intros HT. unfold pagesNeeded, pageSize.
  pose proof (Z.div_mod (T + (1000 - 1)) 1000 ltac:(lia)) as Hdm.
  pose proof (Z.mod_pos_bound (T + (1000 - 1)) 1000 ltac:(lia)) as Hm.
  destruct (Z.max_spec 1 ((T + (1000 - 1)) / 1000)) as [[Hlt ->] | [Hge ->]]; lia.
Qed.

Section ConstantTotal.

Variable term : jsstring.
Variable cli_locale : jsstring.
Variable SPACE_ID : option jsstring.
Variable ENVIRONMENT_ID : option jsstring.
Variable render : JsValue -> Outcome jsstring.
Variable getEntries : Request -> Outcome Page.

(** The total the API reports on every page. *)
Variable T : Z.
Hypothesis total_nonneg : 0 <= T.

(** Every page request succeeds and reports [T]. *)
Hypothesis api_total :
  forall sk, exists its, getEntries (pageRequest term sk) = Returned (mkPage its T).

(** The entries served can be read. *)
Hypothesis api_wellFormed :
  forall sk its, getEntries (pageRequest term sk) = Returned (mkPage its T) ->
                 Forall wellFormedEntry its.

(** No page holds entries beyond the reported total. *)
Hypothesis api_within_total :
  forall sk its, getEntries (pageRequest term sk) = Returned (mkPage its T) ->
                 Z.of_nat (length its) <= Z.max 0 (T - sk).

Let loop := pageLoop term cli_locale SPACE_ID ENVIRONMENT_ID render getEntries.

Lemma pageLoop_constant_total (m : nat) :
  forall (fuel : nat) (sk : Z) (rows : list Row) (sent : list Request),
    (1 <= m <= fuel)%nat ->
    (sk + pageSize * (Z.of_nat m - 1) < T \/ m = 1%nat) ->
    T <= sk + pageSize * Z.of_nat m ->
    exists rows',
      loop fuel sk rows sent
      = Some (sent ++ map (pageRequest term) (skipsFrom sk m), Returned rows')
      /\ (T <= sk -> rows' = rows).
Proof.
  unfold loop.
  induction m as [|m IH]; intros fuel sk rows sent [Hm Hfuel] Hbefore Hreach; [lia|].
  destruct fuel as [|fuel]; [lia|]. simpl pageLoop.
  destruct (api_total sk) as [its Hpage]. rewrite Hpage. cbn [items total].
  destruct (entryLoop_wellFormed term cli_locale SPACE_ID ENVIRONMENT_ID render
              its rows (api_wellFormed sk its Hpage)) as [rows1 Hrows1].
  rewrite Hrows1.
  destruct m as [|m].
  - (* the last page *)
    destruct (Z.ltb_spec (sk + pageSize) T) as [Hlt | Hge]; [lia|].
    exists rows1. split; [reflexivity|].
    intros Hsk. pose proof (api_within_total sk its Hpage) as Hlen.
    destruct its as [|e its]; [simpl in Hrows1; congruence | simpl length in Hlen; lia].
  - (* more pages follow *)
    assert (Hlt : sk + pageSize < T) by (unfold pageSize in *; lia).
    destruct (Z.ltb_spec (sk + pageSize) T) as [_ | Hge]; [|lia].
    destruct (IH fuel (sk + pageSize) rows1 (sent ++ [pageRequest term sk]))
      as (rows' & Hrun & _); [lia | unfold pageSize in *; lia | unfold pageSize in *; lia |].
    exists rows'. split; [|intros; unfold pageSize in *; lia].
    rewrite Hrun. cbn [skipsFrom map]. now rewrite <- app_assoc.
Qed.

(** C3, amended.  Against an API that reports the same total [T] on every
    page, the loop ends: any fuel of at least [pagesNeeded T] gives the same
    finished run.  The run sends exactly [max 1 (ceil (T / 1000))] requests,
    at offsets 0, 1000, 2000, ..., going on while the next offset is below
    [T] and stopping at the first one that reaches or exceeds [T]; with
    [T = 0] it sends one request and returns no row.  Every request asks for
    1000 entries: the entries asked for sum to 1000 times the number of
    requests, which equals [T] only when [T] is a positive multiple of 1000.
    The windows asked for hold each of the [T] entries once. *)
Theorem pagination_constant_total (fuel : nat) :
  (pagesNeeded T <= fuel)%nat ->
  exists sent rows,
    searchContentful term cli_locale SPACE_ID ENVIRONMENT_ID render getEntries fuel
    = Some (sent, Returned rows)
    /\ sent = map (pageRequest term) (skipsFrom 0 (pagesNeeded T))
    /\ Z.of_nat (length sent) = Z.max 1 ((T + 999) / 1000)
    /\ T <= 1000 * ((T + 999) / 1000) < T + 1000
    /\ (1000 * (Z.of_nat (length sent) - 1) < T \/ length sent = 1%nat)
    /\ T <= 1000 * Z.of_nat (length sent)
    /\ requestedEntries sent = 1000 * Z.of_nat (length sent)
    /\ (requestedEntries sent = T <-> 0 < T /\ T mod 1000 = 0)
    /\ coveredEntries T sent = T
    /\ (T = 0 -> length sent = 1%nat /\ rows = []).
Proof.
  intros Hfuel.
  destruct (pagesNeeded_spec T total_nonneg) as (H1 & Hreach & Hbefore).
  destruct (pageLoop_constant_total (pagesNeeded T) fuel 0 [] [])
    as (rows & Hrun & Hempty); [lia | lia | lia |].
  exists (map (pageRequest term) (skipsFrom 0 (pagesNeeded T))), rows.
  unfold searchContentful. fold loop. rewrite Hrun. simpl app.
  pose proof (Z.div_mod (T + 999) 1000 ltac:(lia)) as Hdm.
  pose proof (Z.mod_pos_bound (T + 999) 1000 ltac:(lia)) as Hmod.
  assert (Hn : Z.of_nat (pagesNeeded T) = Z.max 1 ((T + 999) / 1000)).
  { unfold pagesNeeded, pageSize. change (1000 - 1) with 999. lia. }
  rewrite requestedEntries_pages, length_map, length_skipsFrom.
  rewrite coveredEntries_pages by lia.
  unfold pageSize in *.
  split; [reflexivity|]. split; [reflexivity|]. split; [exact Hn|]. split; [lia|].
  split; [exact Hbefore|]. split; [exact Hreach|].
  split; [reflexivity|]. split; [split|]; [| |split].
  - intros Heq. split; [lia|]. rewrite <- Heq, Z.mul_comm. apply Z.mod_mul. lia.
  - intros [Hpos Hmul].
    pose proof (Z.div_mod T 1000 ltac:(lia)) as HT. rewrite Hmul in HT.
    destruct Hbefore as [Hb | Hb]; lia.
  - lia.
  - intros HT. split; [|apply Hempty; lia].
    subst T. reflexivity.
Qed.

End ConstantTotal.

(** ** One row per entry *)

(** In [index.js] an entry adds at most one row, whatever its fields. *)
Lemma processEntry_at_most_one
    (term cli_locale : jsstring) (SPACE_ID ENVIRONMENT_ID : option jsstring)
    (render : JsValue -> Outcome jsstring) (entry : Entry) (rows rows' : list Row) :
  processEntry term cli_locale SPACE_ID ENVIRONMENT_ID render entry rows = Returned rows' ->
  rows' = rows
  \/ exists name value idx,
       rows' = rows ++ [matchRow term cli_locale SPACE_ID ENVIRONMENT_ID entry name value idx].
Proof.
  unfold processEntry. destruct (objectEntries (fields entry)) as [kvs|err]; [|discriminate].
  intros [= <-]. apply fieldLoop_at_most_one.
Qed.

Example index_js_reports_entry_once :
  processEntry (lit "Foo") (lit "en-US") (Some (lit "space1")) (Some (lit "master"))
    brokenRenderer twoMatchingFields []
  = Returned [ matchRow (lit "Foo") (lit "en-US") (Some (lit "space1")) (Some (lit "master"))
                 twoMatchingFields (lit "title") (lit "Foo Fighters") 0 ].
Proof. reflexivity. Qed.

(** C1, on the variant that writes the field cases out in the loop.  For an
    entry with two plain string fields that both hold the term, that variant
    appends two rows, one per field, both for the same entry: after a plain
    string field it goes on to the next field without looking at whether a
    row was just added. *)
Theorem variant_reports_entry_twice :
  exists r1 r2,
    processEntry2 (lit "Foo") (lit "en-US") (Some (lit "space1")) (Some (lit "master"))
      brokenRenderer twoMatchingFields ([], [])
    = Returned ([r1; r2], [])
    /\ d_id r1 = sys_id twoMatchingFields
    /\ d_id r2 = sys_id twoMatchingFields
    /\ d_fieldName r1 = lit "title"
    /\ d_fieldName r2 = lit "summary"
    /\ d_snippet r1 = lit "[Foo] Fighters"
    /\ d_snippet r2 = lit "All about [Foo]".
Proof.
  do 2 eexists. split; [reflexivity|]. repeat split.
Qed.

(** ** A malformed entry *)

(** In [index.js] nothing catches what [Object.entries] throws: the entry
    loop ends there, and so does the run. *)
Lemma entryLoop_malformed
    (term cli_locale : jsstring) (SPACE_ID ENVIRONMENT_ID : option jsstring)
    (render : JsValue -> Outcome jsstring)
    (pre rest : list Entry) (e : Entry) (err : JsError) (rows : list Row) :
  Forall wellFormedEntry pre ->
  objectEntries (fields e) = Thrown err ->
  entryLoop term cli_locale SPACE_ID ENVIRONMENT_ID render (pre ++ e :: rest) rows
  = Thrown err.
Proof.
  intros Hpre He. revert rows.
  induction Hpre as [|p pre [kvs Hp] _ IH]; intros rows; simpl; unfold processEntry.
  - now rewrite He.
  - rewrite Hp. apply IH.
Qed.

(** The variants catch it: the entry is logged and skipped, and the loop
    goes on with the entries that follow. *)
Lemma entryLoop1_malformed
    (term cli_locale : jsstring) (SPACE_ID ENVIRONMENT_ID : option jsstring)
    (render : JsValue -> Outcome jsstring)
    (rest : list Entry) (e : Entry) (err : JsError)
    (rows : list DebugRow) (console : list ConsoleLine) :
  objectEntries (fields e) = Thrown err ->
  entryLoop1 term cli_locale SPACE_ID ENVIRONMENT_ID render (e :: rest) (rows, console)
  = entryLoop1 term cli_locale SPACE_ID ENVIRONMENT_ID render rest
      (rows, console ++ [ LogLine (lit "Error processing entry: "
                                   ++ orElse (Some (sys_id e)) (lit "unknown"));
                          ErrorLine err ]).
Proof.
  intros He. simpl. unfold processEntry1, entryGuard, objectKeys. now rewrite He.
Qed.

(** C4, on [index.js].  A page holds an entry without [fields] and, after
    it, a sound entry that holds the term.  [index.js] ends the run with the
    [TypeError] of the first entry and returns no row; the earlier variant,
    given the same page, logs the first entry, skips it, and reports the
    second. *)
Theorem malformed_entry_aborts_run :
  main sampleArgv sampleEnv (fun _ => serveCollection [brokenEntry; soundEntry])
    brokenRenderer 1
  = Some ([pageRequest (lit "Foo") 0],
          Thrown (TypeError (lit "Cannot convert undefined or null to object")))
  /\ exists r,
       entryLoop1 (lit "Foo") (lit "en-US") (Some (lit "space1")) (Some (lit "master"))
         brokenRenderer [brokenEntry; soundEntry] ([], [])
       = Returned ([r],
                   [ LogLine (lit "Error processing entry: entry0");
                     ErrorLine (TypeError (lit "Cannot convert undefined or null to object")) ])
       /\ d_id r = sys_id soundEntry.
Proof.
  split; [reflexivity|]. eexists. split; reflexivity.
Qed.

(** ** Configuration *)

(** A missing term, space identifier or access token ends the script before
    any request is sent. *)
Lemma missing_credentials_are_fatal
    (argv : list jsstring) (env : ProcessEnv)
    (createClient : ClientOptions -> Request -> Outcome Page)
    (render : JsValue -> Outcome jsstring) (fuel : nat) :
  missing (nth_error argv 2) = true
  \/ missing (env_SPACE_ID env) = true
  \/ missing (env_CPA_TOKEN env) = true ->
  exists err, main argv env createClient render fuel = Some ([], Thrown err)
              /\ (err = usageError \/ err = configError).
Proof.
  unfold main. intros H.
  destruct (missing (nth_error argv 2)); [exists usageError; auto|].
  destruct H as [H | [-> | ->]]; [discriminate | |].
  - exists configError; auto.
  - rewrite orb_true_r. exists configError; auto.
Qed.

(** C5, for the environment identifier.  With the space identifier and the
    token set and [ENVIRONMENT_ID] unset, the script raises no configuration
    error: it builds the client, sends a page request, and reports a match
    whose link names the environment ["undefined"]. *)
Theorem missing_environment_id_not_detected :
  exists r,
    main sampleArgv envWithoutEnvironment (fun _ => serveCollection [soundEntry])
      brokenRenderer 1
    = Some ([pageRequest (lit "Foo") 0], Returned [r])
    /\ link r = lit "https://app.contentful.com/spaces/space1/environments/undefined/entries/entry2".
Proof.
  eexists. split; reflexivity.
Qed.

(** ** Worked examples *)

Lemma Forall_window {A : Type} (P : A -> Prop) (l : list A) (count from : nat) :
  Forall P l -> Forall P (firstn count (skipn from l)).
Proof.
  intros H. rewrite <- (firstn_skipn from l) in H. apply Forall_app in H as [_ H].
  rewrite <- (firstn_skipn count (skipn from l)) in H. now apply Forall_app in H as [H _].
Qed.

Lemma serveCollection_total (db : list Entry) (req : Request) :
  exists its, serveCollection db req = Returned (mkPage its (Z.of_nat (length db))).
Proof. eexists. reflexivity. Qed.

Lemma serveCollection_wellFormed (db : list Entry) (req : Request)
    (its : list Entry) (T : Z) :
  Forall wellFormedEntry db ->
  serveCollection db req = Returned (mkPage its T) ->
  Forall wellFormedEntry its.
Proof.
  intros Hdb [= <- _]. now apply Forall_window.
Qed.

Lemma serveCollection_within_total (db : list Entry) (req : Request)
    (its : list Entry) (T : Z) :
  serveCollection db req = Returned (mkPage its T) ->
  Z.of_nat (length its) <= Z.max 0 (T - skip req).
Proof.
  intros [= <- <-]. rewrite length_firstn, length_skipn. lia.
Qed.

Lemma collection1500_wellFormed : Forall wellFormedEntry collection1500.
Proof.
  apply Forall_forall. intros e He. apply repeat_spec in He as ->.
  eexists. reflexivity.
Qed.

(** The spec's scenario: the term ["ProductName"] in the title
    ["The ProductName Pro"]. *)
Example snippet_ProductName :
  makeSnippet (lit "ProductName") (lit "The ProductName Pro")
    (indexOf (lit "The ProductName Pro") (lit "ProductName"))
  = lit "The [ProductName] Pro".
Proof. reflexivity. Qed.

(** A match far from both ends: 30 code units of context on each side, and
    both ellipses. *)
Example snippet_both_ellipses :
  makeSnippet (lit "Foo")
    (lit "0123456789012345678901234567890123456789Foo0123456789012345678901234567890123456789")
    40
  = ellipsis ++ lit "012345678901234567890123456789[Foo]012345678901234567890123456789"
    ++ ellipsis.
Proof. reflexivity. Qed.

(** Exactly 30 code units on each side: no ellipsis. *)
Example snippet_exactly_thirty :
  makeSnippet (lit "Foo")
    (lit "012345678901234567890123456789Foo012345678901234567890123456789") 30
  = lit "012345678901234567890123456789[Foo]012345678901234567890123456789".
Proof. reflexivity. Qed.

(** The spec's scenario: locale ["de-DE"], field [{ "en-US": "Hallo" }]. *)
Example normalize_other_locale :
  extractStringContent brokenRenderer (JObj [ (lit "en-US", JStr (lit "Hallo")) ])
    (lit "title") (lit "de-DE")
  = None.
Proof. reflexivity. Qed.

(** A locale named like an inherited property is still "absent". *)
Example normalize_inherited_name :
  extractStringContent brokenRenderer (JObj [ (lit "en-US", JStr (lit "Hallo")) ])
    (lit "title") (lit "constructor")
  = None.
Proof. reflexivity. Qed.

Lemma normalize_locale_map_cases_witness :
  extractStringContent brokenRenderer (JObj sampleLocaleMap) (lit "title") (lit "de-DE") = None
  /\ extractStringContent brokenRenderer (JObj sampleLocaleMap) (lit "title") (lit "en-US")
     = Some (lit "Hallo")
  /\ extractStringContent brokenRenderer (JObj sampleLocaleMap) (lit "title") (lit "fr-FR")
     = None.
Proof.
  split; [|split].
  - exact (proj1 (normalize_locale_map_cases brokenRenderer sampleLocaleMap
                    (lit "title") (lit "de-DE") eq_refl) eq_refl).
  - exact (proj1 (proj2 (normalize_locale_map_cases brokenRenderer sampleLocaleMap
                           (lit "title") (lit "en-US") eq_refl)) (lit "Hallo") eq_refl).
  - exact (proj2 (proj2 (normalize_locale_map_cases brokenRenderer sampleLocaleMap
                           (lit "title") (lit "fr-FR") eq_refl)) (JNum 3)
             eq_refl eq_refl eq_refl).
Defined.

Lemma rich_text_rendered_or_absent_witness :
  extractStringContent (textRenderer (lit "All about Foo")) sampleDocument
    (lit "body") (lit "en-US")
  = Some (lit "All about Foo")
  /\ extractStringContent brokenRenderer (JObj [ (lit "en-US", sampleDocument) ])
       (lit "body") (lit "en-US")
     = None
  /\ fieldLoop (lit "Foo") (lit "en-US") (Some (lit "space1")) (Some (lit "master"))
       brokenRenderer soundEntry
       [ (lit "body", sampleDocument); (lit "title", JStr (lit "Foo Fighters")) ] []
     = [ matchRow (lit "Foo") (lit "en-US") (Some (lit "space1")) (Some (lit "master"))
           soundEntry (lit "title") (lit "Foo Fighters") 0 ]
  /\ fieldLoop (lit "Foo") (lit "en-US") (Some (lit "space1")) (Some (lit "master"))
       brokenRenderer soundEntry
       [ (lit "body", JObj [ (lit "en-US", sampleDocument) ]);
         (lit "title", JStr (lit "Foo Fighters")) ] []
     = [ matchRow (lit "Foo") (lit "en-US") (Some (lit "space1")) (Some (lit "master"))
           soundEntry (lit "title") (lit "Foo Fighters") 0 ].
Proof.
  assert (L : leftmostAt (lit "Foo") (lit "Foo Fighters") 0).
  { split; [exists [], (lit " Fighters"); split; reflexivity | intros m _; lia]. }
  split; [|split; [|split]].
  - exact (proj1 (rich_text_rendered_or_absent (lit "Foo") (lit "en-US")
                    (Some (lit "space1")) (Some (lit "master"))
                    (textRenderer (lit "All about Foo")) sampleDocument (lit "body") []
                    eq_refl)).
  - exact (proj1 (proj2 (rich_text_rendered_or_absent (lit "Foo") (lit "en-US")
                           (Some (lit "space1")) (Some (lit "master"))
                           brokenRenderer sampleDocument (lit "body")
                           [ (lit "en-US", sampleDocument) ] eq_refl))
             eq_refl eq_refl).
  - destruct (rich_text_rendered_or_absent (lit "Foo") (lit "en-US")
                (Some (lit "space1")) (Some (lit "master"))
                brokenRenderer sampleDocument (lit "body")
                [ (lit "en-US", sampleDocument) ] eq_refl) as (_ & _ & H).
    destruct (H (Error (lit "malformed rich text")) soundEntry [] sampleDocument
                eq_refl (or_introl eq_refl)) as [Hrow _].
    apply (Hrow [] (lit "title") (JStr (lit "Foo Fighters")) [] (lit "Foo Fighters") 0%nat);
      [constructor | reflexivity | discriminate | exact L].
  - destruct (rich_text_rendered_or_absent (lit "Foo") (lit "en-US")
                (Some (lit "space1")) (Some (lit "master"))
                brokenRenderer sampleDocument (lit "body")
                [ (lit "en-US", sampleDocument) ] eq_refl) as (_ & _ & H).
    destruct (H (Error (lit "malformed rich text")) soundEntry []
                (JObj [ (lit "en-US", sampleDocument) ])
                eq_refl (or_intror (conj eq_refl (conj eq_refl eq_refl)))) as [Hrow _].
    apply (Hrow [] (lit "title") (JStr (lit "Foo Fighters")) [] (lit "Foo Fighters") 0%nat);
      [constructor | reflexivity | discriminate | exact L].
Defined.

Lemma rows_carry_requested_locale_witness :
  exists sent r,
    main sampleArgv sampleEnv (fun _ => serveCollection [soundEntry]) brokenRenderer 1
    = Some (sent, Returned [r])
    /\ Forall (fun r => locale r = lit "en-US") [r].
Proof.
  do 2 eexists. split; [reflexivity|].
  apply (rows_carry_requested_locale sampleArgv sampleEnv
           (fun _ => serveCollection [soundEntry]) brokenRenderer 1
           [pageRequest (lit "Foo") 0]).
  reflexivity.
Defined.

(** A plain string field, which has no locale of its own, is reported under
    the locale asked for. *)
Example plain_string_reported_under_requested_locale :
  exists sent r,
    main germanArgv sampleEnv (fun _ => serveCollection [soundEntry]) brokenRenderer 1
    = Some (sent, Returned [r])
    /\ fieldName r = lit "title"
    /\ locale r = lit "de-DE".
Proof.
  do 2 eexists. split; [reflexivity|]. split; reflexivity.
Qed.

Lemma snippet_at_leftmost_occurrence_witness :
  exists before after r,
    lit "a Foo b Foo" = before ++ lit "Foo" ++ after
    /\ (forall m, occursAt (lit "Foo") (lit "a Foo b Foo") m -> (length before <= m)%nat)
    /\ processStringValue (lit "Foo") (lit "en-US") (Some (lit "space1")) (Some (lit "master"))
         soundEntry (lit "title") (lit "a Foo b Foo") [] = (true, [] ++ [r])
    /\ snippet r = makeSnippet (lit "Foo") (lit "a Foo b Foo") (Z.of_nat (length before))
    /\ snippet r
       = (if 30 <? Z.of_nat (length before) then ellipsis else [])
         ++ skipn (length before - 30) before
         ++ lit "[" ++ lit "Foo" ++ lit "]"
         ++ firstn 30 after
         ++ (if (30 <? length after)%nat then ellipsis else []).
Proof.
  apply (snippet_at_leftmost_occurrence (lit "Foo") (lit "en-US")
           (Some (lit "space1")) (Some (lit "master")) soundEntry
           (lit "title") (lit "a Foo b Foo") []).
  exists 2%nat, (lit "a "), (lit " b Foo"). split; reflexivity.
Defined.

Example snippet_two_occurrences :
  processStringValue (lit "Foo") (lit "en-US") (Some (lit "space1")) (Some (lit "master"))
    soundEntry (lit "title") (lit "a Foo b Foo") []
  = (true, [ matchRow (lit "Foo") (lit "en-US") (Some (lit "space1")) (Some (lit "master"))
               soundEntry (lit "title") (lit "a Foo b Foo") 2 ])
  /\ makeSnippet (lit "Foo") (lit "a Foo b Foo") 2 = lit "a [Foo] b Foo".
Proof. split; reflexivity. Qed.

Lemma pagination_constant_total_witness :
  exists rows,
    searchContentful (lit "Foo") (lit "en-US") (Some (lit "space1")) (Some (lit "master"))
      brokenRenderer (serveCollection collection1500) 2
    = Some ([pageRequest (lit "Foo") 0; pageRequest (lit "Foo") 1000], Returned rows).
Proof.
  destruct (pagination_constant_total (lit "Foo") (lit "en-US")
              (Some (lit "space1")) (Some (lit "master")) brokenRenderer
              (serveCollection collection1500) 1500
              ltac:(lia)
              (fun sk => serveCollection_total collection1500 (pageRequest (lit "Foo") sk))
              (fun sk its => serveCollection_wellFormed collection1500 _ its 1500
                               collection1500_wellFormed)
              (fun sk its => serveCollection_within_total collection1500
                               (pageRequest (lit "Foo") sk) its 1500)
              2 ltac:(vm_compute; lia))
    as (sent & rows & Hrun & Hsent & _).
  exists rows. rewrite Hrun, Hsent. reflexivity.
Defined.

(** C3, as stated, at a total of 1500.  The API reports 1500 on every page
    and serves 1500 entries in all; the run sends two requests, each asking
    for 1000 entries, so 2000 entries are asked for, not 1500. *)
Lemma requested_entries_exceed_total :
  (forall req, exists its,
      serveCollection collection1500 req = Returned (mkPage its 1500))
  /\ exists sent rows,
       searchContentful (lit "Foo") (lit "en-US") (Some (lit "space1")) (Some (lit "master"))
         brokenRenderer (serveCollection collection1500) 2
       = Some (sent, Returned rows)
       /\ length sent = 2%nat
       /\ requestedEntries sent = 2000
       /\ requestedEntries sent <> 1500.
Proof.
  split.
  - intros req. exact (serveCollection_total collection1500 req).
  - do 2 eexists. split; [vm_compute; reflexivity|].
    split; [reflexivity|]. split; [reflexivity|]. vm_compute. discriminate.
Qed.

(** * Further properties of the code *)

(** ** Which field decides an entry's row *)

(** X1. The field loop of [index.js], for any list of fields: either every
    field is passed over and the rows are left as they were, or the fields
    split at the first one that normalises to a non-empty string holding the
    term, and the loop appends exactly the row of that field, built at the
    leftmost occurrence.  No row is reported without an occurrence, and no
    occurrence in a listed field goes unreported. *)
Theorem fieldLoop_reports_first_match
    (term cli_locale : jsstring) (SPACE_ID ENVIRONMENT_ID : option jsstring)
    (render : JsValue -> Outcome jsstring)
    (entry : Entry) (kvs : list (jsstring * JsValue)) (rows : list Row) :
  (Forall (passedOver term cli_locale render) kvs
   /\ fieldLoop term cli_locale SPACE_ID ENVIRONMENT_ID render entry kvs rows = rows)
  \/ (exists pre name v rest value n,
        kvs = pre ++ (name, v) :: rest
        /\ Forall (passedOver term cli_locale render) pre
        /\ extractStringContent render v name cli_locale = Some value
        /\ value <> []
        /\ leftmostAt term value n
        /\ fieldLoop term cli_locale SPACE_ID ENVIRONMENT_ID render entry kvs rows
           = rows ++ [matchRow term cli_locale SPACE_ID ENVIRONMENT_ID
                        entry name value (Z.of_nat n)]).
Proof.
  induction kvs as [|[name v] kvs IH].
  - left. split; [constructor | reflexivity].
  - assert (Hskip : passedOver term cli_locale render (name, v) ->
                    (Forall (passedOver term cli_locale render) ((name, v) :: kvs)
                     /\ fieldLoop term cli_locale SPACE_ID ENVIRONMENT_ID render
                          entry ((name, v) :: kvs) rows = rows)
                    \/ (exists pre name0 v0 rest value n,
                          (name, v) :: kvs = pre ++ (name0, v0) :: rest
                          /\ Forall (passedOver term cli_locale render) pre
                          /\ extractStringContent render v0 name0 cli_locale = Some value
                          /\ value <> []
                          /\ leftmostAt term value n
                          /\ fieldLoop term cli_locale SPACE_ID ENVIRONMENT_ID render
                               entry ((name, v) :: kvs) rows
                             = rows ++ [matchRow term cli_locale SPACE_ID ENVIRONMENT_ID
                                          entry name0 value (Z.of_nat n)])).
    { intros Hp. rewrite (fieldLoop_passedOver _ _ _ _ _ _ _ _ _ Hp).
      destruct IH as [[Hall Hrows] | (pre & n0 & v0 & rest & value & n & -> & Hpre & Hv & Hne & L & Hrun)].
      - left. split; [now constructor | assumption].
      - right. exists ((name, v) :: pre), n0, v0, rest, value, n.
        split; [reflexivity|]. split; [now constructor|]. split; [assumption|].
        split; [assumption|]. split; [assumption|]. assumption. }
    destruct (extractStringContent render v name cli_locale) as [value|] eqn:E.
    + destruct value as [|c value].
      * apply Hskip. unfold passedOver. simpl. rewrite E. now left.
      * destruct (contains_dec term (c :: value)) as [Hc | Hno].
        -- right. destruct (contains_leftmost _ _ Hc) as [n L].
           exists [], name, v, kvs, (c :: value), n.
           split; [reflexivity|]. split; [constructor|]. split; [exact E|].
           split; [discriminate|]. split; [exact L|].
           apply (fieldLoop_first_match term cli_locale SPACE_ID ENVIRONMENT_ID render
                    entry [] kvs name v (c :: value) n rows);
             [constructor | assumption | discriminate | assumption].
        -- apply Hskip. unfold passedOver. simpl. rewrite E. now right.
    + apply Hskip. unfold passedOver. simpl. now rewrite E.
Qed.

(** ** What the normaliser reads and what it leaves alone *)

(** X2. A field whose value is neither a string nor a plain object (an
    array, a number, a boolean, [null], [undefined]) normalises to "absent"
    and the field loop of [index.js] goes on past it: such a field is never
    searched, whatever it holds. *)
Theorem non_text_fields_are_skipped
    (term cli_locale : jsstring) (SPACE_ID ENVIRONMENT_ID : option jsstring)
    (render : JsValue -> Outcome jsstring) (v : JsValue) (name : jsstring) :
  isStringType v = false ->
  (forall props, v <> JObj props) ->
  extractStringContent render v name cli_locale = None
  /\ forall entry rest rows,
       fieldLoop term cli_locale SPACE_ID ENVIRONMENT_ID render entry ((name, v) :: rest) rows
       = fieldLoop term cli_locale SPACE_ID ENVIRONMENT_ID render entry rest rows.
Proof.
  intros Hs Ho.
  assert (E : extractStringContent render v name cli_locale = None).
  { destruct v as [| |b|n|s|elems|props|]; try reflexivity.
    - now destruct b.
    - unfold extractStringContent. simpl truthy. now destruct (n =? 0).
    - discriminate Hs.
    - exfalso. now apply (Ho props). }
  split; [exact E|]. intros entry rest rows. now apply fieldLoop_absent.
Qed.

(** X3. Whatever the normaliser answers was there to be read: a string it
    returns is the field value itself, or the string under the requested
    locale key of a locale map, or what the renderer returned for a value of
    rich-text shape (the field value, or the value under the locale key). *)
Theorem normalize_provenance
    (render : JsValue -> Outcome jsstring) (v : JsValue) (name loc s : jsstring) :
  extractStringContent render v name loc = Some s ->
  v = JStr s
  \/ exists props,
       v = JObj props
       /\ ((hasRichTextShape v = true /\ render v = Returned s)
           \/ (hasRichTextShape v = false /\ ownProp props loc = Some (JStr s))
           \/ (hasRichTextShape v = false
               /\ exists d, ownProp props loc = Some d
                            /\ hasRichTextShape d = true
                            /\ render d = Returned s)).
Proof.
  destruct v as [| |b|n|s0|elems|props|]; try discriminate.
  - now destruct b.
  - unfold extractStringContent. simpl truthy. now destruct (n =? 0).
  - intros [= ->]. now left.
  - intros H. right. exists props. split; [reflexivity|].
    destruct (hasRichTextShape (JObj props)) eqn:Hshape.
    + left. split; [reflexivity|].
      rewrite (normalize_rich_text render _ name loc Hshape) in H.
      unfold renderOrNull in H. now destruct (render (JObj props)); inversion H.
    + right. rewrite (normalize_locale_map render props name loc Hshape) in H.
      destruct (ownProp props loc) as [value|]; [|discriminate].
      destruct (truthy value && isObjectType value && hasRichTextShape value) eqn:C.
      * right. split; [reflexivity|]. exists value.
        apply andb_true_iff in C as [_ C].
        unfold renderOrNull in H. split; [reflexivity|]. split; [assumption|].
        now destruct (render value); inversion H.
      * left. split; [reflexivity|]. destruct value; try discriminate. now inversion H.
Qed.

(** X4. The renderer is consulted for values of rich-text shape only: two
    renderers that agree on those give the same normaliser. *)
Theorem renderer_only_for_rich_text
    (render1 render2 : JsValue -> Outcome jsstring) (v : JsValue) (name loc : jsstring) :
  (forall d, hasRichTextShape d = true -> render1 d = render2 d) ->
  extractStringContent render1 v name loc = extractStringContent render2 v name loc.
Proof.
  intros Hagree. destruct v as [| |b|n|s0|elems|props|]; try reflexivity.
  { now destruct b. }
  { unfold extractStringContent. simpl truthy. now destruct (n =? 0). }
  destruct (hasRichTextShape (JObj props)) eqn:Hshape.
  - rewrite !(normalize_rich_text _ _ name loc Hshape). unfold renderOrNull.
    now rewrite (Hagree _ Hshape).
  - rewrite !(normalize_locale_map _ props name loc Hshape).
    destruct (ownProp props loc) as [value|]; [|reflexivity].
    destruct (truthy value && isObjectType value && hasRichTextShape value) eqn:C;
      [|reflexivity].
    apply andb_true_iff in C as [_ C]. unfold renderOrNull. now rewrite (Hagree _ C).
Qed.

(** ** The size of a snippet *)

Lemma slice_length_le (s : jsstring) (a b : Z) :
  0 <= a -> 0 <= b -> Z.of_nat (length (slice s a b)) <= Z.max 0 (b - a).
Proof.
  intros Ha Hb. unfold slice, jslength.
  destruct (Z.ltb_spec a 0); [lia|]. destruct (Z.ltb_spec b 0); [lia|].
  rewrite length_firstn. lia.
Qed.

(** X5. At any offset that is not negative, the snippet is at most 64 code
    units longer than the term: 30 before, 30 after, the two brackets and the
    two ellipses. *)
Theorem makeSnippet_length_bound (term txt : jsstring) (i : Z) :
  0 <= i ->
  (length (makeSnippet term txt i) <= length term + 64)%nat.
Proof.
  intros Hi. unfold makeSnippet. rewrite !length_app.
  pose proof (slice_length_le txt (Z.max 0 (i - 30)) i ltac:(lia) Hi) as Hpre.
  pose proof (slice_length_le txt (i + jslength term) (i + jslength term + 30)
                ltac:(unfold jslength; lia) ltac:(unfold jslength; lia)) as Hpost.
  assert (Hlead : (length (if (30 <? i)%Z then ellipsis else []) <= 1)%nat)
    by (destruct (30 <? i); simpl; lia).
  assert (Htrail : (length (if (i + jslength term + 30 <? jslength txt)%Z
                            then ellipsis else []) <= 1)%nat)
    by (destruct (i + jslength term + 30 <? jslength txt); simpl; lia).
  change (length (lit "[")) with 1%nat. change (length (lit "]")) with 1%nat.
  lia.
Qed.

(** ** Start-up *)


(** ** The requests of a run *)

Section Trace.

Variable term : jsstring.
Variable cli_locale : jsstring.
Variable SPACE_ID : option jsstring.
Variable ENVIRONMENT_ID : option jsstring.
Variable render : JsValue -> Outcome jsstring.
Variable getEntries : Request -> Outcome Page.

Let loop := pageLoop term cli_locale SPACE_ID ENVIRONMENT_ID render getEntries.

Lemma pageLoop_trace (fuel : nat) :
  forall (sk : Z) (rows : list Row) (sent sent' : list Request) (out : Outcome (list Row)),
    loop fuel sk rows sent = Some (sent', out) ->
    exists n,
      sent' = sent ++ map (pageRequest term) (skipsFrom sk (S n))
      /\ (forall k, (k < n)%nat ->
            exists page, getEntries (pageRequest term (sk + pageSize * Z.of_nat k))
                         = Returned page
                         /\ sk + pageSize * (Z.of_nat k + 1) < total page)
      /\ match out with
         | Returned _ =>
             exists page, getEntries (pageRequest term (sk + pageSize * Z.of_nat n))
                          = Returned page
                          /\ total page <= sk + pageSize * (Z.of_nat n + 1)
         | Thrown err =>
             getEntries (pageRequest term (sk + pageSize * Z.of_nat n)) = Thrown err
             \/ exists page rows0,
                  getEntries (pageRequest term (sk + pageSize * Z.of_nat n)) = Returned page
                  /\ entryLoop term cli_locale SPACE_ID ENVIRONMENT_ID render
                       (items page) rows0 = Thrown err
         end.
Proof.
  unfold loop. induction fuel as [|fuel IH]; intros sk rows sent sent' out;
    cbn [pageLoop]; [discriminate|].
  assert (Hsk : sk + pageSize * Z.of_nat 0 = sk) by (unfold pageSize; lia).
  destruct (getEntries (pageRequest term sk)) as [page|err] eqn:Hpage.
  - destruct (entryLoop _ _ _ _ _ (items page) rows) as [rows1|err] eqn:Hentries.
    + destruct (Z.ltb_spec (sk + pageSize) (total page)) as [Hlt | Hge].
      * intros H. apply IH in H as (n & -> & Hbefore & Hlast).
        exists (S n). split; [now rewrite <- app_assoc|]. split.
        -- intros [|k] Hk.
           ++ exists page. rewrite Hsk. split; [assumption | lia].
           ++ destruct (Hbefore k ltac:(lia)) as (p & Hp & Htot).
              exists p.
              replace (sk + pageSize * Z.of_nat (S k))
                with (sk + pageSize + pageSize * Z.of_nat k) by lia.
              split; [assumption | lia].
        -- replace (sk + pageSize * Z.of_nat (S n))
             with (sk + pageSize + pageSize * Z.of_nat n) by lia.
           destruct out as [rows2|err].
           ++ destruct Hlast as (p & Hp & Htot). exists p. split; [assumption | lia].
           ++ exact Hlast.
      * intros [= <- <-]. exists 0%nat. split; [reflexivity|]. split; [intros k Hk; lia|].
        exists page. rewrite Hsk. split; [assumption | lia].
    + intros [= <- <-]. exists 0%nat. split; [reflexivity|]. split; [intros k Hk; lia|].
      right. exists page, rows. rewrite Hsk. now split.
  - intros [= <- <-]. exists 0%nat. split; [reflexivity|]. split; [intros k Hk; lia|].
    left. now rewrite Hsk.
Qed.

(** X7. Whatever the API answers, a run that ends has sent the page
    requests at offsets 0, 1000, 2000, ... with none left out and none sent
    twice; every page but the last reported a total above the next offset,
    and the decision to stop was taken on the total of the last page alone.
    A run that ends with an error ends with the error of its last request,
    or with the error of an entry of the page that request brought. *)
Theorem run_follows_latest_total (fuel : nat) (sent : list Request)
    (out : Outcome (list Row)) :
  searchContentful term cli_locale SPACE_ID ENVIRONMENT_ID render getEntries fuel
  = Some (sent, out) ->
  exists n,
    sent = map (pageRequest term) (skipsFrom 0 (S n))
    /\ (forall k, (k < n)%nat ->
          exists page, getEntries (pageRequest term (1000 * Z.of_nat k)) = Returned page
                       /\ 1000 * (Z.of_nat k + 1) < total page)
    /\ match out with
       | Returned _ =>
           exists page, getEntries (pageRequest term (1000 * Z.of_nat n)) = Returned page
                        /\ total page <= 1000 * (Z.of_nat n + 1)
       | Thrown err =>
           getEntries (pageRequest term (1000 * Z.of_nat n)) = Thrown err
           \/ exists page rows0,
                getEntries (pageRequest term (1000 * Z.of_nat n)) = Returned page
                /\ entryLoop term cli_locale SPACE_ID ENVIRONMENT_ID render
                     (items page) rows0 = Thrown err
       end.
Proof.
  unfold searchContentful. intros H.
  apply pageLoop_trace in H as (n & -> & Hbefore & Hlast).
  exists n. split; [reflexivity|]. exact (conj Hbefore Hlast).
Qed.

(** X8. The loop has no bound of its own on the number of pages: against an
    API whose every page reports a total above the next offset, no amount of
    fuel lets the run end. *)
Theorem run_never_ends_on_growing_total :
  (forall sk, exists page,
      getEntries (pageRequest term sk) = Returned page
      /\ Forall wellFormedEntry (items page)
      /\ sk + pageSize < total page) ->
  forall fuel,
    searchContentful term cli_locale SPACE_ID ENVIRONMENT_ID render getEntries fuel = None.
Proof.
  intros Hgrow fuel. unfold searchContentful.
  generalize 0 at 1. generalize (@nil Row). generalize (@nil Request).
  induction fuel as [|fuel IH]; intros sent rows sk; [reflexivity|]. simpl.
  destruct (Hgrow sk) as (page & -> & Hwf & Hlt).
  destruct (entryLoop_wellFormed term cli_locale SPACE_ID ENVIRONMENT_ID render
              (items page) rows Hwf) as [rows1 ->].
  destruct (Z.ltb_spec (sk + pageSize) (total page)); [apply IH | lia].
Qed.

End Trace.

(** ** Pages and entries *)

Section Pages.

Variable term : jsstring.
Variable cli_locale : jsstring.
Variable SPACE_ID : option jsstring.
Variable ENVIRONMENT_ID : option jsstring.
Variable render : JsValue -> Outcome jsstring.

Let pass := entryLoop term cli_locale SPACE_ID ENVIRONMENT_ID render.

(** Processing two lists of entries one after the other is processing
    their concatenation. *)
Lemma entryLoop_app (a b : list Entry) (rows : list Row) :
  pass (a ++ b) rows
  = match pass a rows with
    | Returned rows' => pass b rows'
    | Thrown err => Thrown err
    end.
Proof.
  unfold pass. revert rows. induction a as [|e a IH]; intros rows; simpl; [reflexivity|].
  destruct (processEntry _ _ _ _ _ e rows); [apply IH | reflexivity].
Qed.

Lemma pageLoop_serveCollection (db : list Entry) (m : nat) :
  forall (fuel : nat) (sk : Z) (rows : list Row) (sent : list Request),
    0 <= sk ->
    (1 <= m <= fuel)%nat ->
    Z.of_nat (length db) <= sk + pageSize * Z.of_nat m ->
    exists sent',
      pageLoop term cli_locale SPACE_ID ENVIRONMENT_ID render (serveCollection db)
        fuel sk rows sent
      = Some (sent', pass (skipn (Z.to_nat sk) db) rows).
Proof.
  induction m as [|m IH]; intros fuel sk rows sent Hsk [Hm Hfuel] Hreach; [lia|].
  destruct fuel as [|fuel]; [lia|].
  cbn [pageLoop].
  assert (Hpage : serveCollection db (pageRequest term sk)
                  = Returned (mkPage (firstn (Z.to_nat pageSize) (skipn (Z.to_nat sk) db))
                                (Z.of_nat (length db)))) by reflexivity.
  rewrite Hpage. clear Hpage. cbn [items total].
  remember (Z.to_nat pageSize) as P eqn:HP.
  remember (skipn (Z.to_nat sk) db) as tail eqn:Htail.
  assert (Hlen : length tail = (length db - Z.to_nat sk)%nat)
    by (subst tail; apply length_skipn).
  assert (Hsplit : pass tail rows
                   = match pass (firstn P tail) rows with
                     | Returned rows' => pass (skipn P tail) rows'
                     | Thrown err => Thrown err
                     end)
    by (rewrite <- entryLoop_app; now rewrite firstn_skipn).
  rewrite Hsplit. fold pass.
  destruct (pass (firstn P tail) rows) as [rows1|err]; [|now eexists].
  destruct (Z.ltb_spec (sk + pageSize) (Z.of_nat (length db))) as [Hlt | Hge].
  - destruct m as [|m]; [unfold pageSize in *; lia|].
    destruct (IH fuel (sk + pageSize) rows1 (sent ++ [pageRequest term sk]))
      as [sent' Hrun]; [unfold pageSize; lia | lia | unfold pageSize in *; lia |].
    exists sent'. rewrite Hrun. f_equal. f_equal. subst tail.
    rewrite skipn_skipn. subst P. unfold pageSize.
    replace (Z.to_nat (sk + 1000)) with (Z.to_nat 1000 + Z.to_nat sk)%nat by lia.
    reflexivity.
  - eexists. f_equal. f_equal.
    rewrite skipn_all2; [reflexivity|]. subst P. unfold pageSize in *. lia.
Qed.

(** X9. Against an API that serves the windows of a fixed collection and
    reports its size, paging neither loses nor repeats an entry: with fuel
    for [pagesNeeded] pages the run ends with exactly what one pass of the
    entry loop over the whole collection gives, rows or error. *)
Theorem run_is_one_pass (db : list Entry) (fuel : nat) :
  (pagesNeeded (Z.of_nat (length db)) <= fuel)%nat ->
  exists sent,
    searchContentful term cli_locale SPACE_ID ENVIRONMENT_ID render (serveCollection db) fuel
    = Some (sent, entryLoop term cli_locale SPACE_ID ENVIRONMENT_ID render db []).
Proof.
  intros Hfuel.
  destruct (pagesNeeded_spec (Z.of_nat (length db)) ltac:(lia)) as (H1 & Hreach & _).
  destruct (pageLoop_serveCollection db (pagesNeeded (Z.of_nat (length db))) fuel 0 [] [])
    as [sent Hrun]; [lia | lia | lia |].
  exists sent. exact Hrun.
Qed.

(** X10. The entry loop keeps the rows it was given, in place, and adds
    rows in the order of the entries: the identifiers of the added rows are
    a subsequence of the identifiers of the entries, so no entry is reported
    twice by one pass and no row is reported for an entry that was not
    there. *)
Theorem rows_follow_entries (entries : list Entry) (rows rows' : list Row) :
  entryLoop term cli_locale SPACE_ID ENVIRONMENT_ID render entries rows = Returned rows' ->
  exists added,
    rows' = rows ++ added
    /\ subsequence (map id added) (map sys_id entries).
Proof.
  revert rows rows'. induction entries as [|e rest IH]; intros rows rows'; simpl.
  - intros [= <-]. exists []. rewrite app_nil_r. split; [reflexivity | constructor].
  - unfold processEntry. destruct (objectEntries (fields e)) as [kvs|err]; [|discriminate].
    intros H. apply IH in H as (added & -> & Hsub).
    destruct (fieldLoop_at_most_one term cli_locale SPACE_ID ENVIRONMENT_ID render e kvs rows)
      as [E | (name & value & idx & E)]; rewrite E.
    + exists added. split; [reflexivity | now constructor].
    + exists (matchRow term cli_locale SPACE_ID ENVIRONMENT_ID e name value idx :: added).
      rewrite <- app_assoc. split; [reflexivity|]. simpl. now constructor.
Qed.

End Pages.

(** ** The variants *)

Lemma jsstring_eqb_eq (a b : jsstring) : jsstring_eqb a b = true <-> a = b.
Proof.
  revert b; induction a as [|c a IH]; intros [|d b]; simpl;
    try (split; [discriminate | discriminate]); [split; reflexivity|].
  rewrite andb_true_iff, N.eqb_eq, IH. split.
  - now intros [-> ->].
  - intros [= -> ->]. now split.
Qed.

Lemma entryGuard_none (e : Entry) :
  entryGuard e = None -> exists kvs, objectEntries (fields e) = Returned kvs.
Proof.
  unfold entryGuard, objectKeys.
  destruct (objectEntries (fields e)) as [kvs|err]; [|discriminate]. now exists kvs.
Qed.

Section VariantLoops.

Variable term : jsstring.
Variable cli_locale : jsstring.
Variable SPACE_ID : option jsstring.
Variable ENVIRONMENT_ID : option jsstring.
Variable render : JsValue -> Outcome jsstring.

Let scan1 := fieldLoop1 term cli_locale SPACE_ID ENVIRONMENT_ID render.
Let scan2 := fieldLoop2 term cli_locale SPACE_ID ENVIRONMENT_ID render.
Let pass1 := entryLoop1 term cli_locale SPACE_ID ENVIRONMENT_ID render.
Let pass2 := entryLoop2 term cli_locale SPACE_ID ENVIRONMENT_ID render.

Lemma fieldLoop1_keeps_rows (e : Entry) (kvs : list (jsstring * JsValue))
    (rows : list DebugRow) :
  exists added, scan1 e kvs rows = rows ++ added /\ (length added <= 1)%nat.
Proof.
  unfold scan1. induction kvs as [|[name v] rest IH]; simpl.
  - exists []. split; [now rewrite app_nil_r | simpl; lia].
  - assert (Hnext : exists added,
               (if lastRowIs rows (sys_id e) then rows
                else fieldLoop1 term cli_locale SPACE_ID ENVIRONMENT_ID render e rest rows)
               = rows ++ added /\ (length added <= 1)%nat).
    { destruct (lastRowIs rows (sys_id e)); [|exact IH].
      exists []. split; [now rewrite app_nil_r | simpl; lia]. }
    destruct (extractStringContent render v name cli_locale) as [value|]; [|exact Hnext].
    destruct (truthyStr value); [|exact Hnext].
    destruct (negb (indexOf value term =? -1)); [|exact Hnext].
    eexists. split; [reflexivity | simpl; lia].
Qed.

Lemma processStringValue2_keeps_rows (e : Entry) (name value : jsstring)
    (rows : list DebugRow) :
  exists added,
    snd (processStringValue2 term SPACE_ID ENVIRONMENT_ID e name value rows) = rows ++ added.
Proof.
  unfold processStringValue2. destruct (negb (indexOf value term =? -1)); simpl.
  - now eexists.
  - exists []. now rewrite app_nil_r.
Qed.

Lemma renderAndProcess2_keeps_rows (e : Entry) (name : jsstring) (v : JsValue)
    (rows : list DebugRow) :
  exists added,
    renderAndProcess2 term SPACE_ID ENVIRONMENT_ID render e name v rows = rows ++ added.
Proof.
  unfold renderAndProcess2. destruct (render v) as [text|err].
  - apply processStringValue2_keeps_rows.
  - exists []. now rewrite app_nil_r.
Qed.

Lemma fieldLoop2_keeps_rows (e : Entry) (kvs : list (jsstring * JsValue)) :
  forall rows, exists added, scan2 e kvs rows = rows ++ added.
Proof.
  unfold scan2. induction kvs as [|[name v] rest IH]; intros rows; cbn [fieldLoop2].
  - exists []. now rewrite app_nil_r.
  - assert (Hnext : exists added,
               (if lastRowIs rows (sys_id e) then rows
                else fieldLoop2 term cli_locale SPACE_ID ENVIRONMENT_ID render e rest rows)
               = rows ++ added).
    { destruct (lastRowIs rows (sys_id e)); [|apply IH].
      exists []. now rewrite app_nil_r. }
    assert (Hthen : forall mid, (exists a, mid = rows ++ a) ->
               exists added,
                 fieldLoop2 term cli_locale SPACE_ID ENVIRONMENT_ID render e rest mid
                 = rows ++ added).
    { intros mid [a ->]. destruct (IH (rows ++ a)) as [b ->].
      exists (a ++ b). now rewrite app_assoc. }
    assert (Hobj : exists added,
               (if truthy v && isObjectType v && negb (isArray v)
                then
                  if hasRichTextShape v
                  then fieldLoop2 term cli_locale SPACE_ID ENVIRONMENT_ID render e rest
                         (renderAndProcess2 term SPACE_ID ENVIRONMENT_ID render e name v rows)
                  else if hasProperty v cli_locale
                  then
                    if truthy (getProp v cli_locale) && isObjectType (getProp v cli_locale)
                       && hasRichTextShape (getProp v cli_locale)
                    then fieldLoop2 term cli_locale SPACE_ID ENVIRONMENT_ID render e rest
                           (renderAndProcess2 term SPACE_ID ENVIRONMENT_ID render e name
                              (getProp v cli_locale) rows)
                    else match getProp v cli_locale with
                         | JStr sv =>
                             if negb (indexOf sv term =? -1)
                             then rows ++ [debugRow term SPACE_ID ENVIRONMENT_ID e name sv
                                             (indexOf sv term)]
                             else if lastRowIs rows (sys_id e) then rows
                                  else fieldLoop2 term cli_locale SPACE_ID ENVIRONMENT_ID
                                         render e rest rows
                         | _ => if lastRowIs rows (sys_id e) then rows
                                else fieldLoop2 term cli_locale SPACE_ID ENVIRONMENT_ID
                                       render e rest rows
                         end
                  else if lastRowIs rows (sys_id e) then rows
                       else fieldLoop2 term cli_locale SPACE_ID ENVIRONMENT_ID render e rest rows
                else if lastRowIs rows (sys_id e) then rows
                     else fieldLoop2 term cli_locale SPACE_ID ENVIRONMENT_ID render e rest rows)
               = rows ++ added).
    { destruct (truthy v && isObjectType v && negb (isArray v)); [|exact Hnext].
      destruct (hasRichTextShape v);
        [apply Hthen, renderAndProcess2_keeps_rows|].
      destruct (hasProperty v cli_locale); [|exact Hnext].
      destruct (truthy (getProp v cli_locale) && isObjectType (getProp v cli_locale)
                && hasRichTextShape (getProp v cli_locale));
        [apply Hthen, renderAndProcess2_keeps_rows|].
      destruct (getProp v cli_locale); try exact Hnext.
      destruct (negb (indexOf s term =? -1)); [now eexists | exact Hnext]. }
    destruct v; try exact Hobj.
    apply Hthen, processStringValue2_keeps_rows.
Qed.

Lemma variant_entry_loops_return (entries : list Entry)
    (rows : list DebugRow) (console : list ConsoleLine) :
  exists added1 added2,
    pass1 entries (rows, console)
    = Returned (rows ++ added1, console ++ flat_map guardLines entries)
    /\ pass2 entries (rows, console)
       = Returned (rows ++ added2, console ++ flat_map guardLines entries).
Proof.
  unfold pass1, pass2. revert rows console.
  induction entries as [|e rest IH]; intros rows console; simpl.
  - exists [], []. now rewrite !app_nil_r.
  - unfold processEntry1, processEntry2, guardLines at 1 3.
    destruct (entryGuard e) as [lines|] eqn:G; cbn [fst snd].
    + destruct (IH rows (console ++ lines)) as (a1 & a2 & -> & ->).
      exists a1, a2. now rewrite <- !app_assoc.
    + destruct (entryGuard_none e G) as [kvs ->].
      destruct (fieldLoop1_keeps_rows e kvs rows) as (b1 & E1 & _).
      destruct (fieldLoop2_keeps_rows e kvs rows) as (b2 & E2).
      unfold scan1 in E1. unfold scan2 in E2. rewrite E1, E2.
      destruct (IH (rows ++ b1) console) as (a1 & _ & H1 & _).
      destruct (IH (rows ++ b2) console) as (_ & a2 & _ & H2).
      exists (b1 ++ a1), (b2 ++ a2). rewrite H1, H2. simpl.
      now rewrite !app_assoc.
Qed.

Lemma indexOf_leftmost (value : jsstring) (n : nat) :
  leftmostAt term value n -> indexOf value term = Z.of_nat n.
Proof.
  intros [Hocc Hleast].
  destruct (indexOf_spec term value) as [[_ Hno] | (m & Hm & Hocc' & Hleast')].
  - exfalso. apply Hno. now exists n.
  - rewrite Hm. f_equal. apply Nat.le_antisymm; auto.
Qed.

Lemma variant_entry_loops_scan (entries : list Entry) :
  forall (rows : list DebugRow) (console : list ConsoleLine),
    pass1 entries (rows, console)
    = Returned (scanReadable scan1 entries rows,
                console ++ flat_map guardLines entries)
    /\ pass2 entries (rows, console)
       = Returned (scanReadable scan2 entries rows,
                   console ++ flat_map guardLines entries).
Proof.
  unfold pass1, pass2, scanReadable.
  induction entries as [|e rest IH]; intros rows console; cbn [entryLoop1 entryLoop2].
  - cbn. now rewrite app_nil_r.
  - unfold processEntry1, processEntry2. cbn [flat_map fold_left].
    unfold guardLines at 1 3. unfold entryGuard, objectKeys.
    destruct (objectEntries (fields e)) as [kvs|err]; cbn [fst snd].
    + destruct (IH (scan1 e kvs rows) console) as [H1 _].
      destruct (IH (scan2 e kvs rows) console) as [_ H2].
      unfold scan1 in H1 at 1. unfold scan2 in H2 at 1. rewrite H1, H2.
      cbn [app]. now split.
    + destruct (IH rows (console ++ [ LogLine (lit "Error processing entry: "
                                               ++ orElse (Some (sys_id e)) (lit "unknown"));
                                      ErrorLine err ])) as [H1 H2].
      rewrite H1, H2. now rewrite <- !app_assoc.
Qed.

(** X11. In both variants the entry loop never throws, whatever the
    entries.  Its rows are those of the field loop run, in order, on the
    entries whose [fields] can be listed; an entry whose [fields] cannot be
    listed adds no row and costs the two console lines of the catch block.
    The entries after such an entry are still searched: when the next entry
    has a single field, a string that holds the term, its row is reported. *)
Theorem variants_skip_malformed_entries (entries : list Entry)
    (rows : list DebugRow) (console : list ConsoleLine) :
  entryLoop1 term cli_locale SPACE_ID ENVIRONMENT_ID render entries (rows, console)
  = Returned (scanReadable (fieldLoop1 term cli_locale SPACE_ID ENVIRONMENT_ID render)
                entries rows,
              console ++ flat_map guardLines entries)
  /\ entryLoop2 term cli_locale SPACE_ID ENVIRONMENT_ID render entries (rows, console)
     = Returned (scanReadable (fieldLoop2 term cli_locale SPACE_ID ENVIRONMENT_ID render)
                   entries rows,
                 console ++ flat_map guardLines entries)
  /\ (forall e err,
        objectEntries (fields e) = Thrown err ->
        guardLines e = [ LogLine (lit "Error processing entry: "
                                  ++ orElse (Some (sys_id e)) (lit "unknown"));
                         ErrorLine err ]
        /\ forall e' name value n,
             objectEntries (fields e') = Returned [(name, JStr value)] ->
             value <> [] ->
             leftmostAt term value n ->
             entryLoop1 term cli_locale SPACE_ID ENVIRONMENT_ID render [e; e'] (rows, console)
             = Returned (rows ++ [debugRow term SPACE_ID ENVIRONMENT_ID e' name value
                                    (Z.of_nat n)],
                         console ++ guardLines e)
             /\ entryLoop2 term cli_locale SPACE_ID ENVIRONMENT_ID render [e; e']
                  (rows, console)
                = Returned (rows ++ [debugRow term SPACE_ID ENVIRONMENT_ID e' name value
                                       (Z.of_nat n)],
                            console ++ guardLines e)).
Proof.
  destruct (variant_entry_loops_scan entries rows console) as [H1 H2].
  split; [exact H1|]. split; [exact H2|].
  intros e err He.
  assert (Hlines : guardLines e
                   = [ LogLine (lit "Error processing entry: "
                                ++ orElse (Some (sys_id e)) (lit "unknown"));
                       ErrorLine err ])
    by (unfold guardLines, entryGuard, objectKeys; now rewrite He).
  split; [exact Hlines|].
  intros e' name value n He' Hne L.
  assert (Hnone : guardLines e' = [])
    by (unfold guardLines, entryGuard, objectKeys; now rewrite He').
  destruct (variant_entry_loops_scan [e; e'] rows console) as [G1 G2].
  unfold pass1 in G1. unfold pass2 in G2. rewrite G1, G2.
  unfold scanReadable. cbn [fold_left flat_map]. rewrite He, He', Hnone, !app_nil_r.
  unfold scan1, scan2. cbn [fieldLoop1 fieldLoop2 extractStringContent].
  unfold processStringValue2. rewrite (indexOf_leftmost value n L).
  destruct value as [|c value]; [contradiction|]. cbn [truthyStr].
  destruct (Z.eqb_spec (Z.of_nat n) (-1)) as [Hneg | _]; [lia|].
  cbn [negb snd]. now split.
Qed.

End VariantLoops.

Section VariantAgreement.

Variable term : jsstring.
Variable cli_locale : jsstring.
Variable SPACE_ID : option jsstring.
Variable ENVIRONMENT_ID : option jsstring.
Variable render : JsValue -> Outcome jsstring.

Lemma lastRowIs_fresh (rows : list Row) (ident : jsstring) :
  (forall r, In r rows -> id r <> ident) ->
  lastRowIs (map toDebugRow rows) ident = false.
Proof.
  intros Hfresh. unfold lastRowIs. rewrite <- map_rev.
  destruct (rev rows) as [|r tl] eqn:E; [reflexivity|]. simpl.
  destruct (jsstring_eqb (id r) ident) eqn:Q; [|reflexivity].
  apply jsstring_eqb_eq in Q. exfalso. apply (Hfresh r); [|assumption].
  apply in_rev. rewrite E. now left.
Qed.

Lemma fieldLoop1_agrees (e : Entry) (kvs : list (jsstring * JsValue)) (rows : list Row) :
  lastRowIs (map toDebugRow rows) (sys_id e) = false ->
  fieldLoop1 term cli_locale SPACE_ID ENVIRONMENT_ID render e kvs (map toDebugRow rows)
  = map toDebugRow (fieldLoop term cli_locale SPACE_ID ENVIRONMENT_ID render e kvs rows).
Proof.
  intros Hlast. induction kvs as [|[name v] rest IH]; simpl; [reflexivity|].
  rewrite Hlast.
  destruct (extractStringContent render v name cli_locale) as [value|]; [|exact IH].
  destruct (truthyStr value); [|exact IH].
  unfold processStringValue.
  destruct (negb (indexOf value term =? -1)); [|exact IH].
  now rewrite map_app.
Qed.

(** X12. On a page of readable entries with pairwise different
    identifiers, the variant that calls [extractStringContent] finds what
    [index.js] finds: its rows are the rows of [index.js] without the
    content type and the locale, in the same order, and it writes nothing to
    the console. *)
Theorem variant1_agrees_with_index_js (entries : list Entry) (rows : list Row)
    (console : list ConsoleLine) :
  Forall wellFormedEntry entries ->
  NoDup (map sys_id entries) ->
  (forall r, In r rows -> ~ In (id r) (map sys_id entries)) ->
  exists rows',
    entryLoop term cli_locale SPACE_ID ENVIRONMENT_ID render entries rows = Returned rows'
    /\ entryLoop1 term cli_locale SPACE_ID ENVIRONMENT_ID render entries
         (map toDebugRow rows, console)
       = Returned (map toDebugRow rows', console).
Proof.
  intros Hwf. revert rows.
  induction Hwf as [|e rest [kvs Hkvs] _ IH]; intros rows Hnodup Hfresh; simpl.
  - now exists rows.
  - unfold processEntry, processEntry1, entryGuard, objectKeys. rewrite Hkvs. cbn [fst snd].
    inversion Hnodup as [|x l Hnotin Hnodup']; subst.
    rewrite fieldLoop1_agrees.
    2:{ apply lastRowIs_fresh. intros r Hr Heq. apply (Hfresh r Hr). left. now symmetry. }
    apply IH; [assumption|].
    intros r Hr Hin.
    destruct (fieldLoop_at_most_one term cli_locale SPACE_ID ENVIRONMENT_ID render e kvs rows)
      as [E | (name & value & idx & E)]; rewrite E in Hr.
    + apply (Hfresh r Hr). now right.
    + apply in_app_or in Hr as [Hr | [<- | []]].
      * apply (Hfresh r Hr). now right.
      * now apply Hnotin.
Qed.

End VariantAgreement.

(** ** Links *)

(** X13. For a given space and environment, the link of a row determines
    the entry: two entries have the same link exactly when they have the same
    identifier. *)
Theorem entryLink_determines_entry
    (SPACE_ID ENVIRONMENT_ID : option jsstring) (id1 id2 : jsstring) :
  entryLink SPACE_ID ENVIRONMENT_ID id1 = entryLink SPACE_ID ENVIRONMENT_ID id2
  <-> id1 = id2.
Proof.
  split; [|now intros ->].
  unfold entryLink. intros H.
  now repeat apply app_inv_head in H.
Qed.

(** ** Runs of the variants *)

Section VariantRuns.

Variable term : jsstring.
Variable cli_locale : jsstring.
Variable getEntries : Request -> Outcome Page.
Variable entryPass :
  list Entry -> list DebugRow * list ConsoleLine
  -> Outcome (list DebugRow * list ConsoleLine).

Hypothesis entryPass_returns : forall entries st, exists st', entryPass entries st = Returned st'.

Lemma variantPageLoop_error (fuel : nat) :
  forall sk st sent sent' err,
    variantPageLoop term cli_locale getEntries entryPass fuel sk st sent
    = Some (sent', Thrown err) ->
    exists front last,
      sent' = front ++ [variantRequest term cli_locale last]
      /\ getEntries (variantRequest term cli_locale last) = Thrown err.
Proof.
  induction fuel as [|fuel IH]; intros sk st sent sent' err; cbn [variantPageLoop];
    [discriminate|].
  destruct (getEntries (variantRequest term cli_locale sk)) as [page|e] eqn:Hpage.
  - destruct (entryPass_returns (items page) st) as [st' ->].
    destruct (sk + pageSize <? total page); [apply IH | discriminate].
  - intros [= <- <-]. now exists sent, sk.
Qed.

End VariantRuns.

(** X15. A run of either variant can end with an error in one way only: its
    last page request failed, and the error is that request's.  What goes
    wrong inside an entry never ends the run. *)
Theorem variant_runs_end_on_request_failure_only
    (term cli_locale : jsstring) (SPACE_ID ENVIRONMENT_ID : option jsstring)
    (render : JsValue -> Outcome jsstring) (getEntries : Request -> Outcome Page)
    (fuel : nat) (sent : list Request) (err : JsError) :
  variantRun1 term cli_locale SPACE_ID ENVIRONMENT_ID render getEntries fuel
  = Some (sent, Thrown err)
  \/ variantRun2 term cli_locale SPACE_ID ENVIRONMENT_ID render getEntries fuel
     = Some (sent, Thrown err) ->
  exists front last,
    sent = front ++ [variantRequest term cli_locale last]
    /\ getEntries (variantRequest term cli_locale last) = Thrown err.
Proof.
  unfold variantRun1, variantRun2. intros [H | H].
  - apply variantPageLoop_error in H; [assumption|].
    intros entries [rows console].
    destruct (variant_entry_loops_return term cli_locale SPACE_ID ENVIRONMENT_ID
                render entries rows console) as (a1 & _ & H1 & _).
    eexists. exact H1.
  - apply variantPageLoop_error in H; [assumption|].
    intros entries [rows console].
    destruct (variant_entry_loops_return term cli_locale SPACE_ID ENVIRONMENT_ID
                render entries rows console) as (_ & a2 & _ & H2).
    eexists. exact H2.
Qed.

(** ** Where the two variants agree *)

Lemma normalize_non_text (render : JsValue -> Outcome jsstring) (v : JsValue)
    (name loc : jsstring) :
  isStringType v = false ->
  (forall props, v <> JObj props) ->
  extractStringContent render v name loc = None.
Proof.
  intros Hs Ho. destruct v as [| |b|n|s|elems|props|]; try reflexivity.
  - now destruct b.
  - unfold extractStringContent. simpl truthy. now destruct (n =? 0).
  - discriminate Hs.
  - exfalso. now apply (Ho props).
Qed.

(** X14. The two variants differ only on plain strings and rich text.  For
    a term that is not empty and an entry none of whose fields is a plain
    string or rich text, directly or under the locale key, the variant with
    the field cases written out gives the rows of the variant that calls
    [extractStringContent]. *)
Theorem variants_agree_without_plain_or_rich_text
    (term cli_locale : jsstring) (SPACE_ID ENVIRONMENT_ID : option jsstring)
    (render : JsValue -> Outcome jsstring)
    (e : Entry) (kvs : list (jsstring * JsValue)) (rows : list DebugRow) :
  term <> [] ->
  Forall (noPlainOrRichText cli_locale) kvs ->
  fieldLoop2 term cli_locale SPACE_ID ENVIRONMENT_ID render e kvs rows
  = fieldLoop1 term cli_locale SPACE_ID ENVIRONMENT_ID render e kvs rows.
Proof.
  intros Hterm Hall.
  induction Hall as [|[name v] rest (Hs & Hr & Hv) _ IH]; [reflexivity|].
  cbn [snd] in Hs, Hr, Hv. cbn [fieldLoop1 fieldLoop2]. rewrite IH.
  destruct v as [| |b|n|s|elems|props|]; try reflexivity.
  - now destruct b.
  - unfold extractStringContent. simpl truthy. now destruct (n =? 0).
  - discriminate Hs.
  - rewrite (normalize_locale_map render props name cli_locale Hr).
    cbn [truthy isObjectType typeof isArray negb andb]. rewrite Hr.
    unfold hasProperty, getProp in *.
    destruct (ownProp props cli_locale) as [value|].
    + rewrite Hv, !andb_false_r.
      destruct value as [| |b|n|s|elems|vprops|]; try reflexivity.
      destruct s as [|c s]; [|reflexivity].
      cbn [truthyStr]. destruct term; [contradiction | reflexivity].
    + destruct (inPrototype cli_locale) eqn:P; [|reflexivity].
      rewrite Hv, !andb_false_r.
      unfold prototypeProp. rewrite P.
      now destruct (jsstring_eqb cli_locale (lit "__proto__")).
Qed.

(** ** The context line and the snippet *)

Lemma substring_slice (s : jsstring) (a b : Z) :
  0 <= a <= b -> substring s a b = slice s a b.
Proof.
  intros H. unfold substring, slice.
  destruct (Z.ltb_spec a 0); [lia|]. destruct (Z.ltb_spec b 0); [lia|].
  f_equal; [f_equal; lia | f_equal; f_equal; lia].
Qed.

Lemma slice_clamped (s : jsstring) (a b : Z) :
  0 <= b -> slice s a (Z.min (jslength s) b) = slice s a b.
Proof.
  intros H. unfold slice.
  destruct (Z.ltb_spec (Z.min (jslength s) b) 0); [unfold jslength in *; lia|].
  destruct (Z.ltb_spec b 0); [lia|].
  f_equal. f_equal. lia.
Qed.

Lemma slice_term (before t after : jsstring) :
  slice (before ++ t ++ after) (Z.of_nat (length before))
    (Z.of_nat (length before) + jslength t) = t.
Proof.
  unfold slice, jslength. rewrite !length_app.
  destruct (Z.ltb_spec (Z.of_nat (length before)) 0); [lia|].
  destruct (Z.ltb_spec (Z.of_nat (length before) + Z.of_nat (length t)) 0); [lia|].
  match goal with |- firstn ?n (skipn ?k _) = _ =>
    replace k with (length before) by lia;
    replace n with (length t) by lia
  end.
  rewrite skipn_app, skipn_all, Nat.sub_diag. change (skipn 0 (t ++ after)) with (t ++ after).
  rewrite app_nil_l, firstn_app, firstn_all, Nat.sub_diag.
  change (firstn 0 after) with (@nil codeunit). now rewrite app_nil_r.
Qed.

(** X16. At an offset where the term occurs, the context line written to
    the console and the snippet of the row show the same window of the
    string: the same context before and after, the term between brackets,
    and a mark at the same ends; only the mark differs, three full stops on
    the console and one ellipsis character in the snippet. *)
Theorem context_line_matches_snippet (term before after : jsstring) :
  matchContext term (before ++ term ++ after) (Z.of_nat (length before))
  = window (lit "...") term before after
  /\ makeSnippet term (before ++ term ++ after) (Z.of_nat (length before))
     = window ellipsis term before after.
Proof.
  split.
  - unfold matchContext, window.
    rewrite !substring_slice by (unfold jslength; rewrite ?length_app; lia).
    rewrite slice_clamped by (unfold jslength; lia).
    rewrite slice_before, slice_after, slice_term.
    assert (Hlead : (0 <? Z.max 0 (Z.of_nat (length before) - 30))
                    = (30 <? length before)%nat).
    { destruct (Nat.ltb_spec 30 (length before));
        destruct (Z.ltb_spec 0 (Z.max 0 (Z.of_nat (length before) - 30)));
        try reflexivity; lia. }
    assert (Htrail : (Z.min (jslength (before ++ term ++ after))
                        (Z.of_nat (length before) + jslength term + 30)
                      <? jslength (before ++ term ++ after))
                     = (30 <? length after)%nat).
    { unfold jslength. rewrite !length_app.
      destruct (Nat.ltb_spec 30 (length after));
        destruct (Z.ltb_spec
                    (Z.min (Z.of_nat (length before + (length term + length after)))
                       (Z.of_nat (length before) + Z.of_nat (length term) + 30))
                    (Z.of_nat (length before + (length term + length after))));
        try reflexivity; lia. }
    rewrite Hlead, Htrail. now rewrite <- !app_assoc.
  - rewrite makeSnippet_at_occurrence. unfold window. f_equal.
    destruct (Nat.ltb_spec 30 (length before));
      destruct (Z.ltb_spec 30 (Z.of_nat (length before))); try reflexivity; lia.
Qed.

(** ** Worked examples for the further properties *)

Lemma non_text_fields_are_skipped_witness :
  fieldLoop (lit "Foo") (lit "en-US") (Some (lit "space1")) (Some (lit "master"))
    brokenRenderer taggedEntry
    [ (lit "tags", JArr [ JStr (lit "Foo"); JStr (lit "Bar") ]) ] []
  = [].
Proof.
  destruct (non_text_fields_are_skipped (lit "Foo") (lit "en-US")
              (Some (lit "space1")) (Some (lit "master")) brokenRenderer
              (JArr [ JStr (lit "Foo"); JStr (lit "Bar") ]) (lit "tags"))
    as [_ H]; [reflexivity | intros props; discriminate |].
  exact (H taggedEntry [] []).
Defined.

Lemma normalize_provenance_witness :
  JObj sampleLocaleMap = JStr (lit "Hallo")
  \/ exists props,
       JObj sampleLocaleMap = JObj props
       /\ ((hasRichTextShape (JObj sampleLocaleMap) = true
            /\ brokenRenderer (JObj sampleLocaleMap) = Returned (lit "Hallo"))
           \/ (hasRichTextShape (JObj sampleLocaleMap) = false
               /\ ownProp props (lit "en-US") = Some (JStr (lit "Hallo")))
           \/ (hasRichTextShape (JObj sampleLocaleMap) = false
               /\ exists d, ownProp props (lit "en-US") = Some d
                            /\ hasRichTextShape d = true
                            /\ brokenRenderer d = Returned (lit "Hallo"))).
Proof.
  apply (normalize_provenance brokenRenderer (JObj sampleLocaleMap)
           (lit "title") (lit "en-US") (lit "Hallo")).
  reflexivity.
Defined.

Lemma renderer_only_for_rich_text_witness :
  extractStringContent (textRenderer (lit "All about Foo"))
    (JObj [ (lit "en-US", sampleDocument) ]) (lit "body") (lit "en-US")
  = extractStringContent (strictRenderer (lit "All about Foo"))
      (JObj [ (lit "en-US", sampleDocument) ]) (lit "body") (lit "en-US").
Proof.
  apply (renderer_only_for_rich_text (textRenderer (lit "All about Foo"))
           (strictRenderer (lit "All about Foo"))).
  intros d H. unfold strictRenderer, textRenderer. rewrite H. reflexivity.
Defined.

Lemma makeSnippet_length_bound_witness :
  (length (makeSnippet (lit "Foo") (lit "a Foo b Foo") 2) <= length (lit "Foo") + 64)%nat.
Proof.
  apply (makeSnippet_length_bound (lit "Foo") (lit "a Foo b Foo") 2). lia.
Defined.

(** The bound needs the offset not to be negative: at [-1], the answer of
    [indexOf] for "not found", [slice] counts from the end of the string. *)
Example makeSnippet_at_minus_one :
  length (makeSnippet (lit "Foo")
            (lit "0123456789012345678901234567890123456789012345678901234567890123456789") (-1))
  = 105%nat.
Proof. reflexivity. Qed.


Lemma run_follows_latest_total_witness :
  exists n,
    [pageRequest (lit "Foo") 0; pageRequest (lit "Foo") 1000]
    = map (pageRequest (lit "Foo")) (skipsFrom 0 (S n))
    /\ (forall k, (k < n)%nat ->
          exists page,
            serveCollection collection1500 (pageRequest (lit "Foo") (1000 * Z.of_nat k))
            = Returned page
            /\ 1000 * (Z.of_nat k + 1) < total page)
    /\ exists page,
         serveCollection collection1500 (pageRequest (lit "Foo") (1000 * Z.of_nat n))
         = Returned page
         /\ total page <= 1000 * (Z.of_nat n + 1).
Proof.
  apply (run_follows_latest_total (lit "Foo") (lit "en-US") (Some (lit "space1"))
           (Some (lit "master")) brokenRenderer (serveCollection collection1500) 2
           [pageRequest (lit "Foo") 0; pageRequest (lit "Foo") 1000] (Returned [])).
  vm_compute. reflexivity.
Defined.

Lemma run_never_ends_on_growing_total_witness :
  searchContentful (lit "Foo") (lit "en-US") (Some (lit "space1")) (Some (lit "master"))
    brokenRenderer growingApi 50
  = None.
Proof.
  refine (run_never_ends_on_growing_total (lit "Foo") (lit "en-US") (Some (lit "space1"))
            (Some (lit "master")) brokenRenderer growingApi _ 50).
  intros sk. eexists. split; [reflexivity|]. split; [constructor|].
  cbn [total skip pageRequest]. unfold pageSize. lia.
Defined.

Lemma run_is_one_pass_witness :
  exists sent,
    searchContentful (lit "Foo") (lit "en-US") (Some (lit "space1")) (Some (lit "master"))
      brokenRenderer (serveCollection [soundEntry; quietEntry]) 1
    = Some (sent,
            entryLoop (lit "Foo") (lit "en-US") (Some (lit "space1")) (Some (lit "master"))
              brokenRenderer [soundEntry; quietEntry] []).
Proof.
  apply (run_is_one_pass (lit "Foo") (lit "en-US") (Some (lit "space1"))
           (Some (lit "master")) brokenRenderer [soundEntry; quietEntry] 1).
  vm_compute. lia.
Defined.

Lemma rows_follow_entries_witness :
  exists added,
    [ matchRow (lit "Foo") (lit "en-US") (Some (lit "space1")) (Some (lit "master"))
        soundEntry (lit "title") (lit "Foo Fighters") 0 ]
    = [] ++ added
    /\ subsequence (map id added) (map sys_id [quietEntry; soundEntry; taggedEntry]).
Proof.
  apply (rows_follow_entries (lit "Foo") (lit "en-US") (Some (lit "space1"))
           (Some (lit "master")) brokenRenderer [quietEntry; soundEntry; taggedEntry] []).
  reflexivity.
Defined.

Lemma variant1_agrees_with_index_js_witness :
  exists rows',
    entryLoop (lit "Foo") (lit "en-US") (Some (lit "space1")) (Some (lit "master"))
      brokenRenderer [soundEntry; quietEntry] []
    = Returned rows'
    /\ entryLoop1 (lit "Foo") (lit "en-US") (Some (lit "space1")) (Some (lit "master"))
         brokenRenderer [soundEntry; quietEntry] (map toDebugRow [], [])
       = Returned (map toDebugRow rows', []).
Proof.
  apply (variant1_agrees_with_index_js (lit "Foo") (lit "en-US") (Some (lit "space1"))
           (Some (lit "master")) brokenRenderer [soundEntry; quietEntry] [] []).
  - constructor; [eexists; reflexivity|]. constructor; [eexists; reflexivity|]. constructor.
  - constructor.
    + simpl. intros [H | []]. discriminate H.
    + constructor; [intros [] | constructor].
  - intros r [].
Defined.

(** Without the condition on the identifiers the two differ: after a row
    for an entry, the variant looks at one field only of a second entry with
    the same identifier. *)
Example variant1_differs_on_repeated_identifier :
  exists r1 r2,
    entryLoop (lit "Foo") (lit "en-US") (Some (lit "space1")) (Some (lit "master"))
      brokenRenderer
      [ soundEntry;
        article (lit "entry2")
          (JObj [ (lit "title", JStr (lit "no match"));
                  (lit "body", JStr (lit "Foo again")) ]) ] []
    = Returned [r1; r2]
    /\ entryLoop1 (lit "Foo") (lit "en-US") (Some (lit "space1")) (Some (lit "master"))
         brokenRenderer
         [ soundEntry;
           article (lit "entry2")
             (JObj [ (lit "title", JStr (lit "no match"));
                     (lit "body", JStr (lit "Foo again")) ]) ] ([], [])
       = Returned ([toDebugRow r1], []).
Proof.
  do 2 eexists. split; reflexivity.
Qed.

Lemma variants_agree_without_plain_or_rich_text_witness :
  fieldLoop2 (lit "Foo") (lit "en-US") (Some (lit "space1")) (Some (lit "master"))
    brokenRenderer soundEntry localizedFields []
  = fieldLoop1 (lit "Foo") (lit "en-US") (Some (lit "space1")) (Some (lit "master"))
      brokenRenderer soundEntry localizedFields [].
Proof.
  apply (variants_agree_without_plain_or_rich_text (lit "Foo") (lit "en-US")
           (Some (lit "space1")) (Some (lit "master")) brokenRenderer soundEntry
           localizedFields []).
  - discriminate.
  - constructor; [repeat split; reflexivity|].
    constructor; [repeat split; reflexivity|]. constructor.
Defined.

Lemma variant_runs_end_on_request_failure_only_witness :
  exists front last,
    [variantRequest (lit "Foo") (lit "en-US") 0]
    = front ++ [variantRequest (lit "Foo") (lit "en-US") last]
    /\ failingApi (variantRequest (lit "Foo") (lit "en-US") last)
       = Thrown (Error (lit "401 Unauthorized")).
Proof.
  apply (variant_runs_end_on_request_failure_only (lit "Foo") (lit "en-US")
           (Some (lit "space1")) (Some (lit "master")) brokenRenderer failingApi 1
           [variantRequest (lit "Foo") (lit "en-US") 0] (Error (lit "401 Unauthorized"))).
  left. reflexivity.
Defined.

Lemma variants_skip_malformed_entries_witness :
  entryLoop1 (lit "Foo") (lit "en-US") (Some (lit "space1")) (Some (lit "master"))
    brokenRenderer [brokenEntry; soundEntry] ([], [])
  = Returned ([ debugRow (lit "Foo") (Some (lit "space1")) (Some (lit "master"))
                  soundEntry (lit "title") (lit "Foo Fighters") 0 ],
              [ LogLine (lit "Error processing entry: entry0");
                ErrorLine (TypeError (lit "Cannot convert undefined or null to object")) ])
  /\ entryLoop2 (lit "Foo") (lit "en-US") (Some (lit "space1")) (Some (lit "master"))
       brokenRenderer [brokenEntry; soundEntry] ([], [])
     = Returned ([ debugRow (lit "Foo") (Some (lit "space1")) (Some (lit "master"))
                     soundEntry (lit "title") (lit "Foo Fighters") 0 ],
                 [ LogLine (lit "Error processing entry: entry0");
                   ErrorLine (TypeError (lit "Cannot convert undefined or null to object")) ]).
Proof.
  assert (L : leftmostAt (lit "Foo") (lit "Foo Fighters") 0).
  { split; [exists [], (lit " Fighters"); split; reflexivity | intros m _; lia]. }
  destruct (variants_skip_malformed_entries (lit "Foo") (lit "en-US")
              (Some (lit "space1")) (Some (lit "master")) brokenRenderer
              [brokenEntry; soundEntry] [] []) as (_ & _ & H).
  destruct (H brokenEntry (TypeError (lit "Cannot convert undefined or null to object"))
              eq_refl) as [_ Hnext].
  apply (Hnext soundEntry (lit "title") (lit "Foo Fighters") 0%nat);
    [reflexivity | discriminate | exact L].
Defined.
